(** * The free-text slot of the search query builder

    A shallow embedding of
    [static/app/components/searchQueryBuilder/tokens/freeText.tsx]:
    the word locator, the filter-text synthesizer, the focused-word
    replacer, the candidate ranker, the focus router and the event
    handlers of the free-text combobox, with the properties of the
    specification proved (or refuted) about them.

    JavaScript strings are sequences of UTF-16 code units; a code unit is
    modelled as an [N] and a string as a list of them.  Numbers that the
    source uses as lengths, counters and cursor offsets are integers and
    are modelled in [Z]. *)

From Stdlib Require Import List ZArith NArith Lia Bool String Ascii.
From Stdlib Require Import DecimalString DecimalPos.
Import ListNotations.

Local Open Scope Z_scope.
Local Open Scope list_scope.

(** ** The JavaScript primitives the source calls *)

Module JS.

Definition code_unit := N.
Definition jsstring := list code_unit.

(** A literal of the source, written as a Rocq string (ASCII only). *)
Definition lit (s : string) : jsstring :=
  List.map N_of_ascii (list_ascii_of_string s).

Definition SPACE : code_unit := 32%N.
Definition LF : code_unit := 10%N.
Definition COLON : code_unit := 58%N.
Definition QUOTE : code_unit := 34%N.

(** [s.length] *)
Definition length {A} (s : list A) : Z := Z.of_nat (List.length s).

(** [a === b] on strings *)
Fixpoint eqb (a b : jsstring) : bool :=
  match a, b with
  | [], [] => true
  | x :: a', y :: b' => N.eqb x y && eqb a' b'
  | _, _ => false
  end.

(** [s.split(sep)] for a separator of one code unit (the source only
    splits on [' '] and [':']).  The result is never empty. *)
Fixpoint split (sep : code_unit) (s : jsstring) : list jsstring :=
  match s with
  | [] => [[]]
  | c :: r =>
      if N.eqb c sep then [] :: split sep r
      else match split sep r with
           | w :: ws => (c :: w) :: ws
           | [] => [[c]]
           end
  end.

(** [a.join(sep)] *)
Fixpoint join (sep : jsstring) (l : list jsstring) : jsstring :=
  match l with
  | [] => []
  | [w] => w
  | w :: ws => w ++ sep ++ join sep ws
  end.

(** The relative index of [slice]: a negative argument counts from the
    end, and everything is clamped to [0, len]. *)
Definition rel_index (len i : Z) : Z :=
  if i <? 0 then Z.max (len + i) 0 else Z.min i len.

(** [s.slice(start, end)], on strings and on arrays; [None] is an
    omitted [end]. *)
Definition slice {A} (s : list A) (start : Z) (stop : option Z) : list A :=
  let len := length s in
  let from := rel_index len start in
  let to := match stop with Some e => rel_index len e | None => len end in
  firstn (Z.to_nat (to - from)) (skipn (Z.to_nat from) s).

(** WhiteSpace and LineTerminator code units, the ones [trim] removes. *)
Definition is_white_space (c : code_unit) : bool :=
  ((9 <=? c) && (c <=? 13) || (c =? 32) || (c =? 160) || (c =? 5760)
   || (8192 <=? c) && (c <=? 8202) || (c =? 8232) || (c =? 8233)
   || (c =? 8239) || (c =? 8287) || (c =? 12288) || (c =? 65279))%N.

Fixpoint trimStart (s : jsstring) : jsstring :=
  match s with
  | c :: r => if is_white_space c then trimStart r else s
  | [] => []
  end.

Definition trimEnd (s : jsstring) : jsstring := rev (trimStart (rev s)).

(** [s.trim()] *)
Definition trim (s : jsstring) : jsstring := trimEnd (trimStart s).

Fixpoint startsWith (s p : jsstring) {struct p} : bool :=
  match p, s with
  | [], _ => true
  | x :: p', y :: s' => N.eqb x y && startsWith s' p'
  | _ :: _, [] => false
  end.

(** [s.includes(sub)] *)
Fixpoint includes (s sub : jsstring) : bool :=
  startsWith s sub ||
  match s with
  | [] => false
  | _ :: r => includes r sub
  end.

(** [s.replace(pat, rep)] with a string pattern: only the first
    occurrence is replaced.  The replacement is taken literally (the
    source passes the empty string). *)
Fixpoint replace (s pat rep : jsstring) : jsstring :=
  if startsWith s pat then rep ++ skipn (List.length pat) s
  else match s with
       | [] => []
       | c :: r => c :: replace r pat rep
       end.

(** [a.indexOf(x)] on arrays, [-1] when absent; [is_x] is strict
    equality with the searched element. *)
Fixpoint indexOf {A} (is_x : A -> bool) (l : list A) : Z :=
  match l with
  | [] => -1
  | y :: r =>
      if is_x y then 0
      else let i := indexOf is_x r in if i <? 0 then -1 else i + 1
  end.

(** [a.some(p)] *)
Definition some {A} (p : A -> bool) (l : list A) : bool := existsb p l.

(** The decimal text of an integer, as a template literal prints it. *)
Definition Number_toString (n : Z) : jsstring :=
  lit (NilZero.string_of_int (Z.to_int n)).

Definition is_digit (c : code_unit) : bool := ((48 <=? c) && (c <=? 57))%N.

Fixpoint digits_value (acc : Z) (s : jsstring) : Z :=
  match s with
  | c :: r => if is_digit c then digits_value (10 * acc + (Z.of_N c - 48)) r
              else acc
  | [] => acc
  end.

(** [parseInt(s, 10)], up to the conversion to a Number: leading white
    space, an optional sign, then the longest run of decimal digits, as
    the integer they denote; [None] is [NaN], also for a missing
    argument ([undefined]).  The Number is [JSNumber.of_Z] of that
    integer, the integer itself up to 2^53. *)
Definition parseInt (s : option jsstring) : option Z :=
  match s with
  | None => None
  | Some s =>
      let body := trimStart s in
      let '(neg, ds) :=
        match body with
        | c :: r => if (c =? 45)%N then (true, r)
                    else if (c =? 43)%N then (false, r) else (false, body)
        | [] => (false, body)
        end in
      match ds with
      | d :: _ => if is_digit d
                  then Some (if neg then - digits_value 0 ds
                             else digits_value 0 ds)
                  else None
      | [] => None
      end
  end.

End JS.

Import JS.

(** ** Numbers

    The Number values that [parseInt], [+ 1] and a template literal can
    give here: NaN, the infinities, and the doubles that are integers
    (as [parseInt] reads "-0" only to add one to it, the sign of zero is
    not kept). *)

Module JSNumber.

Inductive t :=
| NaN
| Infinity (negative : bool)
| Int (value : Z).

(** The largest integer up to which every integer is a double, 2^53. *)
Definition MAX_EXACT : Z := 9007199254740992.

(** The Number of an integer: the nearest double, ties to the even
    mantissa, infinite from 2^1024 on. *)
Definition of_Z (z : Z) : t :=
  let a := Z.abs z in
  if a <=? MAX_EXACT then Int z
  else
    let e := Z.log2 a - 52 in
    let q := Z.shiftr a e in
    let r := a - Z.shiftl q e in
    let half := Z.shiftl 1 (e - 1) in
    let q' := if (half <? r) || ((r =? half) && Z.odd q) then q + 1 else q in
    let v := Z.shiftl q' e in
    if Z.shiftl 1 1024 <=? v then Infinity (z <? 0)
    else Int (if z <? 0 then - v else v).

(** [parseInt(s, 10)] as a Number: the Number of the integer read (the
    nearest double, also where an implementation is free to drop the
    digits after the 20th), NaN without a digit. *)
Definition parseInt (s : option jsstring) : t :=
  match JS.parseInt s with
  | Some z => of_Z z
  | None => NaN
  end.

(** [x + 1] *)
Definition succ (x : t) : t :=
  match x with
  | Int z => of_Z (z + 1)
  | _ => x
  end.

(** The number of decimal digits of a positive integer. *)
Definition decimal_length (v : Z) : Z := length (Number_toString v).

Fixpoint strip_zeros (fuel : nat) (c : Z) : Z :=
  match fuel with
  | O => c
  | S fuel => if (c mod 10 =? 0) && (0 <? c) then strip_zeros fuel (c / 10)
              else c
  end.

(** The candidate with [k] significant digits that denotes the double
    [v]: a multiple of [10^(d - k)] next to [v] that rounds to [v], the
    nearer one when both do, the one with the even digits on a tie. *)
Definition candidate (v d k : Z) : option Z :=
  let unit := 10 ^ (d - k) in
  let lo := v / unit * unit in
  let hi := lo + unit in
  let is_v c := match of_Z c with Int w => w =? v | _ => false end in
  match is_v lo, is_v hi with
  | true, true =>
      if v - lo <? hi - v then Some lo
      else if hi - v <? v - lo then Some hi
      else if Z.even (lo / unit) then Some lo else Some hi
  | true, false => Some lo
  | false, true => Some hi
  | false, false => None
  end.

Fixpoint shortest (v d : Z) (ks : list Z) : Z :=
  match ks with
  | [] => v
  | k :: rest =>
      if k <=? d then
        match candidate v d k with
        | Some c => c
        | None => shortest v d rest
        end
      else v
  end.

(** The text of a double [v] that is an integer above 2^53: the decimal
    text of the shortest decimal that denotes it, in exponent form from
    10^21 on. *)
Definition toString_large (v : Z) : jsstring :=
  let d := decimal_length v in
  let c := shortest v d (List.map Z.of_nat (seq 1 17)) in
  let n := decimal_length c in
  if n <=? 21 then Number_toString c
  else
    match Number_toString (strip_zeros 400 c) with
    | [] => []
    | first :: rest =>
        [first]
        ++ match rest with
           | [] => []
           | _ :: _ => lit "." ++ rest
           end
        ++ lit "e+" ++ Number_toString (n - 1)
    end.

(** The text of a Number in a template literal. *)
Definition toString (x : t) : jsstring :=
  match x with
  | NaN => lit "NaN"
  | Infinity false => lit "Infinity"
  | Infinity true => lit "-Infinity"
  | Int z =>
      if Z.abs z <=? MAX_EXACT then Number_toString z
      else if z <? 0 then lit "-" ++ toString_large (- z)
      else toString_large z
  end.

End JSNumber.

(** ** Word locator *)

Fixpoint getWordAtCursorPosition_loop
  (words : list jsstring) (characterCount cursorPosition : Z)
  : option jsstring :=
  match words with
  | [] => None
  | word :: rest =>
      let characterCount := characterCount + (length word + 1) in
      if characterCount >=? cursorPosition then Some word
      else getWordAtCursorPosition_loop rest characterCount cursorPosition
  end.

Definition getWordAtCursorPosition (value : jsstring) (cursorPosition : Z)
  : jsstring :=
  let words := split SPACE value in
  match getWordAtCursorPosition_loop words 0 cursorPosition with
  | Some word => word
  | None => value
  end.

(** ** Field definitions, tags and parser tokens

    These types are imported by the source from other modules; they are
    declared here with the members the source reads. *)

(** Modelled from the spec: the [FieldKind] enum of [sentry/utils/fields]
    is not part of the source file; the members the source names are
    kept, the remaining ones are [OtherFieldKind]. *)
Inductive FieldKind :=
| FUNCTION
| TAG
| FIELD
| OtherFieldKind (name : jsstring).

(** Modelled from the spec: the [FieldValueType] enum of
    [sentry/utils/fields] is not part of the source file; the members the
    source names are kept, the remaining ones (boolean, date, ...) are
    [OtherValueType]. *)
Inductive FieldValueType :=
| INTEGER
| NUMBER
| DURATION
| PERCENTAGE
| STRING
| OtherValueType (name : jsstring).

Module AggregateParameter.
Record t := mk { name : jsstring; defaultValue : option jsstring }.
End AggregateParameter.

Module FieldDefinition.
Record t := mk {
  kind : FieldKind;
  valueType : option FieldValueType;
  desc : option jsstring;
  parameters : option (list AggregateParameter.t)
}.
End FieldDefinition.

Module Tag.
Record t := mk { key : jsstring; kind : option FieldKind }.
End Tag.

(** Modelled from the spec: the [Token] enum of the search-syntax parser
    is not part of the source file; the members the source names are
    kept, the remaining ones (spaces, logic booleans, ...) are
    [OtherToken]. *)
Inductive Token :=
| FILTER
| FREE_TEXT
| L_PAREN
| R_PAREN
| OtherToken (name : jsstring).

Definition Token_eqb (a b : Token) : bool :=
  match a, b with
  | FILTER, FILTER | FREE_TEXT, FREE_TEXT
  | L_PAREN, L_PAREN | R_PAREN, R_PAREN => true
  | OtherToken x, OtherToken y => JS.eqb x y
  | _, _ => false
  end.

Inductive InvalidReason :=
| FREE_TEXT_NOT_ALLOWED
| WILDCARD_NOT_ALLOWED
| OtherInvalidReason (name : jsstring).

(** [TokenResult<Token.FREE_TEXT>] *)
Module FreeTextToken.
Record t := mk {
  text : jsstring;
  value : jsstring;
  invalid : option InvalidReason
}.
End FreeTextToken.

(** [ParseResultToken]: only a filter token has a [key]. *)
Inductive ParseResultToken :=
| TokenResult_FILTER (text : jsstring) (key_text : jsstring)
| TokenResult_FREE_TEXT (token : FreeTextToken.t)
| TokenResult_L_PAREN (text : jsstring)
| TokenResult_R_PAREN (text : jsstring)
| TokenResult_other (name : jsstring) (text : jsstring).

Definition type (t : ParseResultToken) : Token :=
  match t with
  | TokenResult_FILTER _ _ => FILTER
  | TokenResult_FREE_TEXT _ => FREE_TEXT
  | TokenResult_L_PAREN _ => L_PAREN
  | TokenResult_R_PAREN _ => R_PAREN
  | TokenResult_other name _ => OtherToken name
  end.

(** [Node<ParseResultToken>] of the list collection *)
Module Node.
Record t := mk { key : jsstring; value : ParseResultToken }.
End Node.

(** [ListState<ParseResultToken>]: the keys of [state.collection] come
    from its nodes, in order; [focusedKey] may be [null]. *)
Module ListState.
Record t := mk { collection : list Node.t; focusedKey : option jsstring }.
Definition getKeys (s : t) : list jsstring := List.map Node.key (collection s).
End ListState.

Module FocusOverride.
Record t := mk { itemKey : jsstring; part : option jsstring }.
End FocusOverride.

Module FilterKeySection.
Record t := mk {
  value : jsstring;
  label : jsstring;
  children : list jsstring
}.
End FilterKeySection.

(** [TagCollection], an object used as a map: the entries in the order
    [Object.values] enumerates them. *)
Definition TagCollection := list (jsstring * Tag.t).

Fixpoint TagCollection_get (keys : TagCollection) (key : jsstring)
  : option Tag.t :=
  match keys with
  | [] => None
  | (k, tag) :: rest =>
      if JS.eqb k key then Some tag else TagCollection_get rest key
  end.

Definition Object_values (keys : TagCollection) : list Tag.t :=
  List.map snd keys.

(** The names of the members of [Object.prototype], which a collection
    inherits like every plain object. *)
Definition Object_prototype_names : list jsstring :=
  [lit "constructor"; lit "hasOwnProperty"; lit "isPrototypeOf";
   lit "propertyIsEnumerable"; lit "toLocaleString"; lit "toString";
   lit "valueOf"; lit "__proto__"; lit "__defineGetter__";
   lit "__defineSetter__"; lit "__lookupGetter__"; lit "__lookupSetter__"].

(** What the property read [keys[key]] gives: the tag under an own key;
    else, for the name of a member of [Object.prototype], that member (a
    function, or the prototype itself), which is not a tag and has no
    [key]; else [undefined]. *)
Inductive PropertyRead :=
| own (tag : Tag.t)
| inherited (name : jsstring)
| undefined.

Definition TagCollection_read (keys : TagCollection) (key : jsstring)
  : PropertyRead :=
  match TagCollection_get keys key with
  | Some tag => own tag
  | None =>
      if existsb (JS.eqb key) Object_prototype_names then inherited key
      else undefined
  end.

Module KeyItem.
(** [details] is the element [<KeyDescription tag={tag} />], kept as
    its [tag] prop. *)
Record t := mk {
  key : jsstring;
  label : jsstring;
  description : jsstring;
  value : jsstring;
  textValue : jsstring;
  hideCheck : bool;
  showDetailsInOverlay : bool;
  details : Tag.t
}.
End KeyItem.

(** An option of a section: the item of a tag, or what [createItem]
    makes of a member inherited from [Object.prototype]; the [key] of
    such a member is [undefined], and with it the [value] and the
    [textValue] of the item, and what its [key] and [label] are made
    from. *)
Inductive SectionOption :=
| item_of_tag (item : KeyItem.t)
| item_of_inherited (name : jsstring)
    (fieldDefinition : option FieldDefinition.t).

Module KeySectionItem.
Record t := mk {
  key : jsstring;
  value : jsstring;
  title : jsstring;
  options : list SectionOption
}.
End KeySectionItem.

(** [KeySectionItem | KeyItem], told apart by [isSection]. *)
Inductive Candidate :=
| Key (item : KeyItem.t)
| Section_ (section : KeySectionItem.t).

Definition isSection (item : Candidate) : bool :=
  match item with
  | Section_ _ => true
  | Key _ => false
  end.

(** The value of [useSearchQueryBuilder()], as far as the source reads it;
    [dispatch] and [handleSearch] are effects (see [Effect]). *)
Module SearchQueryBuilderContext.
Record t := mk {
  query : jsstring;
  filterKeys : TagCollection;
  filterKeySections : list FilterKeySection.t;
  getFieldDefinition : jsstring -> option FieldDefinition.t
}.
End SearchQueryBuilderContext.

(** A function of the source either returns or throws a [TypeError]
    (reading a property of [undefined]). *)
Inductive completion (A : Type) :=
| Normal (a : A)
| Throw_TypeError.
Arguments Normal {A} a.
Arguments Throw_TypeError {A}.

Definition completion_map {A B} (f : A -> B) (c : completion A)
  : completion B :=
  match c with
  | Normal a => Normal (f a)
  | Throw_TypeError => Throw_TypeError
  end.

(** [l.map(f)] where [f] may throw: the first throw aborts the map. *)
Fixpoint map_throwing {A B} (f : A -> completion B) (l : list A)
  : completion (list B) :=
  match l with
  | [] => Normal []
  | x :: r =>
      match f x with
      | Throw_TypeError => Throw_TypeError
      | Normal y => completion_map (cons y) (map_throwing f r)
      end
  end.

(** The actions the component dispatches to the reducer. *)
Inductive Action :=
| UPDATE_FREE_TEXT (tokens : list FreeTextToken.t) (text : jsstring)
    (focusOverride : option FocusOverride.t)
| REPLACE_TOKENS_WITH_TEXT (tokens : list FreeTextToken.t) (text : jsstring).

(** The payload of [trackAnalytics], without the fields that are constants
    of the page (organization, search type, search source). *)
Module Analytics.
Record t := mk {
  item_name : jsstring;
  item_kind : FieldKind;
  item_value_type : FieldValueType;
  filtered : option bool
}.
End Analytics.

(** What an event handler does, in the order it does it. *)
Inductive Effect :=
| preventDefault
| stopPropagation
| call_parseSearch (text : jsstring)
| dispatch (action : Action)
| setInputValue (value : jsstring)
| setSelectionIndex (index : Z)
| handleSearch (query : jsstring)
| trackAnalytics (event : jsstring) (payload : Analytics.t).

(** One render of [SearchQueryBuilderInputInternal]: its props, the state
    of its hooks, the DOM input behind [inputRef] and the context. *)
Module Render.
Record t := mk {
  item : Node.t;
  token : FreeTextToken.t;
  state : ListState.t;
  inputValue : jsstring;
  selectionIndex : Z;
  inputRef_selectionStart : option Z;
  context : SearchQueryBuilderContext.t
}.
End Render.

(** The [e.target] of a change event. *)
Module ChangeEvent.
Record t := mk { value : jsstring; selectionStart : option Z }.
End ChangeEvent.

(** [a ?? b] *)
Definition nullish {A} (a : option A) (b : A) : A :=
  match a with
  | Some x => x
  | None => b
  end.

(** The local state after the state setters of a handler have run. *)
Fixpoint run_setters (effects : list Effect) (st : jsstring * Z)
  : jsstring * Z :=
  match effects with
  | [] => st
  | setInputValue v :: rest => run_setters rest (v, snd st)
  | setSelectionIndex i :: rest => run_setters rest (fst st, i)
  | _ :: rest => run_setters rest st
  end.

Definition is_call_parseSearch (e : Effect) : bool :=
  match e with
  | call_parseSearch _ => true
  | _ => false
  end.

Definition dispatched (effects : list Effect) : list Action :=
  flat_map (fun e => match e with dispatch a => [a] | _ => [] end) effects.

(** ** The functions of the source *)

Section FreeText.

(** Imported by the source from other modules. *)
Variable getDefaultFilterValue :
  jsstring -> option FieldDefinition.t -> jsstring.
Variable getEscapedKey : jsstring -> jsstring.
Variable parseSearch : jsstring -> option (list ParseResultToken).
Variable replaceTokensWithPadding :
  jsstring -> list FreeTextToken.t -> jsstring -> jsstring.
(** [useFuzzySearch(items, options)]: a [Fuse] searcher, or [null] while
    the engine is loading. *)
Variable useFuzzySearch :
  list KeyItem.t -> option (jsstring -> list KeyItem.t).
(** The string value of each member of the [Token] enum. *)
Variable Token_str : Token -> jsstring.

Definition defined {A} (x : option A) : bool :=
  match x with
  | Some _ => true
  | None => false
  end.

Definition is_FUNCTION (k : FieldKind) : bool :=
  match k with
  | FUNCTION => true
  | _ => false
  end.

Definition getInitialFilterKeyText
  (key : jsstring) (fieldDefinition : option FieldDefinition.t) : jsstring :=
  match fieldDefinition with
  | Some fd =>
      if is_FUNCTION (FieldDefinition.kind fd) then
        match FieldDefinition.parameters fd with
        | Some parameters =>
            let parametersText :=
              join (lit ",")
                (List.map
                   (fun param =>
                      nullish (AggregateParameter.defaultValue param) [])
                   (List.filter
                      (fun param =>
                         defined (AggregateParameter.defaultValue param))
                      parameters)) in
            key ++ lit "(" ++ parametersText ++ lit ")"
        | None => key ++ lit "()"
        end
      else key
  | None => key
  end.

Definition getInitialFilterText
  (key : jsstring) (fieldDefinition : option FieldDefinition.t) : jsstring :=
  let defaultValue := getDefaultFilterValue key fieldDefinition in
  let keyText := getInitialFilterKeyText key fieldDefinition in
  match fieldDefinition with
  | Some fd =>
      match FieldDefinition.valueType fd with
      | Some INTEGER
      | Some NUMBER
      | Some DURATION
      | Some PERCENTAGE => keyText ++ lit ":>" ++ defaultValue
      | _ => keyText ++ lit ":" ++ defaultValue
      end
  | None => keyText ++ lit ":" ++ defaultValue
  end.

Fixpoint replaceFocusedWordWithFilter_loop
  (value : jsstring) (key : jsstring)
  (getFieldDefinition : jsstring -> option FieldDefinition.t)
  (words : list jsstring) (characterCount cursorPosition : Z)
  : option jsstring :=
  match words with
  | [] => None
  | word :: rest =>
      let characterCount := characterCount + (length word + 1) in
      if characterCount >=? cursorPosition then
        Some
          (trim
             (trim (slice value 0 (Some (characterCount - length word - 1)))
              ++ (lit " " ++ getInitialFilterText key (getFieldDefinition key)
                  ++ lit " ")
              ++ trim (slice value characterCount None)))
      else
        replaceFocusedWordWithFilter_loop value key getFieldDefinition
          rest characterCount cursorPosition
  end.

Definition replaceFocusedWordWithFilter
  (value : jsstring) (cursorPosition : Z) (key : jsstring)
  (getFieldDefinition : jsstring -> option FieldDefinition.t) : jsstring :=
  let words := split SPACE value in
  match replaceFocusedWordWithFilter_loop value key getFieldDefinition
          words 0 cursorPosition with
  | Some result => result
  | None => value
  end.

Definition getKeyLabel
  (tag : Tag.t) (fieldDefinition : option FieldDefinition.t)
  (includeAggregateArgs : bool) : jsstring :=
  match fieldDefinition with
  | Some fd =>
      if is_FUNCTION (FieldDefinition.kind fd) then
        match FieldDefinition.parameters fd with
        | Some (p :: ps) =>
            if includeAggregateArgs then
              Tag.key tag ++ lit "("
              ++ join (lit ", ") (List.map AggregateParameter.name (p :: ps))
              ++ lit ")"
            else Tag.key tag ++ lit "(...)"
        | _ => Tag.key tag ++ lit "()"
        end
      else Tag.key tag
  | None => Tag.key tag
  end.

Definition createItem
  (tag : Tag.t) (fieldDefinition : option FieldDefinition.t) : KeyItem.t :=
  let description :=
    match fieldDefinition with
    | Some fd => FieldDefinition.desc fd
    | None => None
    end in
  {| KeyItem.key := getEscapedKey (Tag.key tag);
     KeyItem.label := getKeyLabel tag fieldDefinition false;
     KeyItem.description := nullish description [];
     KeyItem.value := Tag.key tag;
     KeyItem.textValue := Tag.key tag;
     KeyItem.hideCheck := true;
     KeyItem.showDetailsInOverlay := true;
     KeyItem.details := tag |}.

(** [keys[key]] is [undefined] for a child that is neither a key of the
    collection nor the name of an inherited member; [createItem] then
    throws on reading [tag.key]. *)
Definition createSection
  (section : FilterKeySection.t) (keys : TagCollection)
  (getFieldDefinition : jsstring -> option FieldDefinition.t)
  : completion KeySectionItem.t :=
  completion_map
    (fun options =>
       {| KeySectionItem.key := FilterKeySection.value section;
          KeySectionItem.value := FilterKeySection.value section;
          KeySectionItem.title := FilterKeySection.label section;
          KeySectionItem.options := options |})
    (map_throwing
       (fun key =>
          match TagCollection_read keys key with
          | own tag =>
              Normal (item_of_tag (createItem tag (getFieldDefinition key)))
          | inherited name =>
              Normal (item_of_inherited name (getFieldDefinition key))
          | undefined => Throw_TypeError
          end)
       (FilterKeySection.children section)).

(** [k === focusedKey] *)
Definition is_focusedKey (focusedKey : option jsstring) (k : jsstring)
  : bool :=
  match focusedKey with
  | Some f => JS.eqb k f
  | None => false
  end.

Definition countPreviousItemsOfType (state : ListState.t) (type : Token) : Z :=
  let itemKeys := ListState.getKeys state in
  let currentIndex :=
    indexOf (is_focusedKey (ListState.focusedKey state)) itemKeys in
  fold_left
    (fun count next =>
       if includes next (Token_str type) then count + 1 else count)
    (slice itemKeys 0 (Some currentIndex)) 0.

Definition calculateNextFocusForFilter (state : ListState.t)
  : FocusOverride.t :=
  let numPreviousFilterItems := countPreviousItemsOfType state FILTER in
  {| FocusOverride.itemKey :=
       Token_str FILTER ++ lit ":" ++ Number_toString numPreviousFilterItems;
     FocusOverride.part := Some (lit "value") |}.

Definition calculateNextFocusForParen (item : Node.t) : FocusOverride.t :=
  let tokenTypeIndexStr := nth_error (split COLON (Node.key item)) 1 in
  let tokenTypeIndex := JSNumber.parseInt tokenTypeIndexStr in
  {| FocusOverride.itemKey :=
       Token_str FREE_TEXT ++ lit ":"
       ++ JSNumber.toString (JSNumber.succ tokenTypeIndex);
     FocusOverride.part := None |}.

Definition is_empty (s : jsstring) : bool :=
  match s with
  | [] => true
  | _ :: _ => false
  end.

Definition useSortItems
  (ctx : SearchQueryBuilderContext.t) (filterValue : jsstring)
  : completion (list Candidate) :=
  let filterKeys := SearchQueryBuilderContext.filterKeys ctx in
  let filterKeySections := SearchQueryBuilderContext.filterKeySections ctx in
  let getFieldDefinition := SearchQueryBuilderContext.getFieldDefinition ctx in
  let flatItems :=
    List.map
      (fun filterKey =>
         createItem filterKey (getFieldDefinition (Tag.key filterKey)))
      (Object_values filterKeys) in
  let search := useFuzzySearch flatItems in
  match is_empty filterValue, search with
  | false, Some search => Normal (List.map Key (search filterValue))
  | _, _ =>
      if length filterKeySections =? 0 then Normal (List.map Key flatItems)
      else
        completion_map (List.map Section_)
          (map_throwing
             (fun section =>
                createSection section filterKeys getFieldDefinition)
             filterKeySections)
  end.

(** *** The handlers of [SearchQueryBuilderInputInternal] *)

Definition trimmedTokenValue (r : Render.t) : jsstring :=
  trim (FreeTextToken.text (Render.token r)).

Definition updateSelectionIndex (r : Render.t) : list Effect :=
  [setSelectionIndex (nullish (Render.inputRef_selectionStart r) 0)].

Definition resetInputValue (r : Render.t) : list Effect :=
  setInputValue (trimmedTokenValue r) :: updateSelectionIndex r.

Definition filterValue (r : Render.t) : jsstring :=
  getWordAtCursorPosition (Render.inputValue r) (Render.selectionIndex r).

Definition onPaste (r : Render.t) (clipboardData : jsstring) : list Effect :=
  let text := trim (replace clipboardData [LF] []) in
  [preventDefault; stopPropagation;
   dispatch (REPLACE_TOKENS_WITH_TEXT [Render.token r] text)]
  ++ resetInputValue r.

Definition tag_kind (tag : option Tag.t) : option FieldKind :=
  match tag with
  | Some tag => Tag.kind tag
  | None => None
  end.

Definition definition_valueType (fd : option FieldDefinition.t)
  : option FieldValueType :=
  match fd with
  | Some fd => FieldDefinition.valueType fd
  | None => None
  end.

Definition onOptionSelected (r : Render.t) (value : jsstring) : list Effect :=
  let ctx := Render.context r in
  let getFieldDefinition := SearchQueryBuilderContext.getFieldDefinition ctx in
  [dispatch
     (UPDATE_FREE_TEXT [Render.token r]
        (replaceFocusedWordWithFilter (Render.inputValue r)
           (Render.selectionIndex r) value getFieldDefinition)
        (Some (calculateNextFocusForFilter (Render.state r))))]
  ++ resetInputValue r
  ++ (let selectedKey :=
        TagCollection_get (SearchQueryBuilderContext.filterKeys ctx) value in
      [trackAnalytics (lit "search.key_autocompleted")
         {| Analytics.item_name := value;
            Analytics.item_kind := nullish (tag_kind selectedKey) FIELD;
            Analytics.item_value_type :=
              nullish (definition_valueType (getFieldDefinition value)) STRING;
            Analytics.filtered := Some (negb (is_empty (filterValue r))) |}]).

Definition onCustomValueBlurred (r : Render.t) (value : jsstring)
  : list Effect :=
  dispatch (UPDATE_FREE_TEXT [Render.token r] value None)
  :: resetInputValue r.

Definition onCustomValueCommitted (r : Render.t) (value : jsstring)
  : list Effect :=
  dispatch (UPDATE_FREE_TEXT [Render.token r] value None)
  :: resetInputValue r
  ++ [handleSearch
        (replaceTokensWithPadding
           (SearchQueryBuilderContext.query (Render.context r))
           [Render.token r] value)].

Definition onExit (r : Render.t) : list Effect :=
  if negb (JS.eqb (Render.inputValue r)
             (trim (FreeTextToken.value (Render.token r))))
  then
    dispatch (UPDATE_FREE_TEXT [Render.token r] (Render.inputValue r) None)
    :: resetInputValue r
  else [].

Definition is_paren (textToken : ParseResultToken) : bool :=
  Token_eqb (type textToken) L_PAREN || Token_eqb (type textToken) R_PAREN.

Definition is_filter_with_key (filterValue : jsstring)
  (textToken : ParseResultToken) : bool :=
  match textToken with
  | TokenResult_FILTER _ key_text => JS.eqb key_text filterValue
  | _ => false
  end.

(** [parsedText?.some(p)]: [undefined], hence falsy, when the parse
    failed. *)
Definition optional_some {A} (p : A -> bool) (l : option (list A)) : bool :=
  match l with
  | Some l => some p l
  | None => false
  end.

Definition onInputChange (r : Render.t) (e : ChangeEvent.t) : list Effect :=
  let ctx := Render.context r in
  let getFieldDefinition := SearchQueryBuilderContext.getFieldDefinition ctx in
  let parsedText := parseSearch (ChangeEvent.value e ++ [QUOTE]) in
  call_parseSearch (ChangeEvent.value e ++ [QUOTE])
  :: if optional_some is_paren parsedText then
       dispatch
         (UPDATE_FREE_TEXT [Render.token r] (ChangeEvent.value e)
            (Some (calculateNextFocusForParen (Render.item r))))
       :: resetInputValue r
     else if optional_some (is_filter_with_key (filterValue r)) parsedText
     then
       let filterKey := filterValue r in
       let key :=
         TagCollection_get (SearchQueryBuilderContext.filterKeys ctx)
           filterKey in
       dispatch
         (UPDATE_FREE_TEXT [Render.token r]
            (replaceFocusedWordWithFilter (Render.inputValue r)
               (Render.selectionIndex r) filterKey getFieldDefinition)
            (Some (calculateNextFocusForFilter (Render.state r))))
       :: resetInputValue r
       ++ [trackAnalytics (lit "search.key_manually_typed")
             {| Analytics.item_name := filterKey;
                Analytics.item_kind := nullish (tag_kind key) FIELD;
                Analytics.item_value_type :=
                  nullish (definition_valueType (getFieldDefinition filterKey))
                    STRING;
                Analytics.filtered := None |}]
     else
       [setInputValue (ChangeEvent.value e);
        setSelectionIndex (nullish (ChangeEvent.selectionStart e) 0)].

End FreeText.

(** ** Definitions used to state the properties *)

(** The scan that [getWordAtCursorPosition] and
    [replaceFocusedWordWithFilter] share: the matched word together with
    [characterCount] at the match. *)
Fixpoint wordScan (words : list jsstring) (characterCount cursorPosition : Z)
  : option (Z * jsstring) :=
  match words with
  | [] => None
  | word :: rest =>
      let characterCount := characterCount + (length word + 1) in
      if characterCount >=? cursorPosition then Some (characterCount, word)
      else wordScan rest characterCount cursorPosition
  end.

(** The cumulative boundary of the word of index [i]: the lengths of the
    words up to it, plus one for each. *)
Fixpoint boundary (words : list jsstring) (i : nat) : Z :=
  match words with
  | [] => 0
  | word :: rest =>
      (length word + 1)
      + match i with
        | O => 0
        | S j => boundary rest j
        end
  end.

(** [text] is [pre ++ word ++ post], where [word] is a space-delimited
    word, its boundary is the first one that reaches [cursor]. *)
Definition located (text : jsstring) (cursor : Z) (pre word post : jsstring)
  : Prop :=
  text = pre ++ word ++ post /\
  ~ In SPACE word /\
  (pre = [] \/ (exists p, pre = p ++ [SPACE]) /\ length pre < cursor) /\
  (post = [] \/ exists q, post = SPACE :: q) /\
  cursor <= length pre + length word + 1.

(** The classification of a keystroke, in the words of the
    specification. *)
Inductive Classification :=
| Class_FREE_TEXT
| FORMS_FILTER (matchedWord : jsstring)
| FORMS_PAREN.

Definition spec_is_paren_kind (span : ParseResultToken) : bool :=
  match type span with
  | L_PAREN | R_PAREN => true
  | _ => false
  end.

Definition spec_is_filter_of (word : jsstring) (span : ParseResultToken)
  : bool :=
  match span with
  | TokenResult_FILTER _ key_text => JS.eqb key_text word
  | _ => false
  end.

Definition spec_classify
  (parse : jsstring -> option (list ParseResultToken))
  (word hypotheticalText : jsstring) : Classification :=
  match parse (hypotheticalText ++ [QUOTE]) with
  | None => Class_FREE_TEXT
  | Some spans =>
      if existsb spec_is_paren_kind spans then FORMS_PAREN
      else if existsb (spec_is_filter_of word) spans then FORMS_FILTER word
      else Class_FREE_TEXT
  end.

(** The number of FILTER-kind tokens among some nodes of the stream. *)
Definition count_FILTER (nodes : list Node.t) : Z :=
  length (List.filter (fun n => Token_eqb (type (Node.value n)) FILTER) nodes).

(** A text with every newline removed. *)
Definition strip_newlines (s : jsstring) : jsstring :=
  List.filter (fun c => negb (N.eqb c LF)) s.

(** The value kinds that the specification gives a comparison prefix:
    numeric, duration and percentage. *)
Definition spec_is_comparison_kind (fieldDefinition : option FieldDefinition.t)
  : bool :=
  match fieldDefinition with
  | Some fd =>
      match FieldDefinition.valueType fd with
      | Some INTEGER | Some NUMBER | Some DURATION | Some PERCENTAGE => true
      | _ => false
      end
  | None => false
  end.

(** A section grouping of the ranker: the value and the label of the
    configured section, and one candidate per child key, made from the
    tag the catalog has under that key. *)
Definition is_section_grouping
  (getEscapedKey : jsstring -> jsstring) (ctx : SearchQueryBuilderContext.t)
  (section : FilterKeySection.t) (group : KeySectionItem.t) : Prop :=
  KeySectionItem.key group = FilterKeySection.value section /\
  KeySectionItem.value group = FilterKeySection.value section /\
  KeySectionItem.title group = FilterKeySection.label section /\
  Forall2
    (fun key option =>
       exists tag,
         TagCollection_get (SearchQueryBuilderContext.filterKeys ctx) key
         = Some tag /\
         option
         = item_of_tag
             (createItem getEscapedKey tag
                (SearchQueryBuilderContext.getFieldDefinition ctx key)))
    (FilterKeySection.children section) (KeySectionItem.options group).

(** *** Sample data

    The string values the parser gives the [Token] members the source
    names, and a stream
    [freeText:0 filter:0 freeText:1 filter:1 freeText:2 filter:2 freeText:3]
    whose slot [freeText:2] has the focus. *)
Definition sample_Token_str (t : Token) : jsstring :=
  match t with
  | FILTER => lit "filter"
  | FREE_TEXT => lit "freeText"
  | L_PAREN => lit "lParen"
  | R_PAREN => lit "rParen"
  | OtherToken name => name
  end.

Definition sample_free_text (text : string) : FreeTextToken.t :=
  FreeTextToken.mk (lit text) (lit text) None.

Definition sample_free_node (key text : string) : Node.t :=
  Node.mk (lit key) (TokenResult_FREE_TEXT (sample_free_text text)).

Definition sample_filter_node (key text key_text : string) : Node.t :=
  Node.mk (lit key) (TokenResult_FILTER (lit text) (lit key_text)).

Definition sample_before : list Node.t :=
  [sample_free_node "freeText:0" EmptyString;
   sample_filter_node "filter:0" "level:error" "level";
   sample_free_node "freeText:1" "foo";
   sample_filter_node "filter:1" "is:unresolved" "is"].

Definition sample_current : Node.t := sample_free_node "freeText:2" "bar".

Definition sample_after : list Node.t :=
  [sample_filter_node "filter:2" "browser.name:firefox" "browser.name";
   sample_free_node "freeText:3" EmptyString].

Definition sample_state : ListState.t :=
  ListState.mk (sample_before ++ sample_current :: sample_after)
    (Some (lit "freeText:2")).

Definition sample_context : SearchQueryBuilderContext.t :=
  SearchQueryBuilderContext.mk
    (lit "level:error foo is:unresolved bar browser.name:firefox")
    [(lit "level", Tag.mk (lit "level") (Some FIELD));
     (lit "browser.name", Tag.mk (lit "browser.name") (Some FIELD))]
    []
    (fun _ => None).

(** A render of the slot [freeText:2], whose committed text is ["bar"],
    with the local text equal to it and the cursor at its end. *)
Definition sample_render : Render.t :=
  Render.mk sample_current (sample_free_text "bar") sample_state
    (lit "bar") 3 (Some 3) sample_context.

(** The same slot after the user typed [" baz"] at the end. *)
Definition sample_edited_render : Render.t :=
  Render.mk sample_current (sample_free_text "bar") sample_state
    (lit "bar baz") 7 (Some 7) sample_context.

(** A clipboard text of three lines. *)
Definition sample_clipboard : jsstring :=
  lit "a" ++ [LF] ++ lit "b" ++ [LF] ++ lit "c".

(** An empty slot, the first of an empty query. *)
Definition sample_empty_render : Render.t :=
  Render.mk (sample_free_node "freeText:0" EmptyString)
    (sample_free_text EmptyString)
    (ListState.mk [sample_free_node "freeText:0" EmptyString]
       (Some (lit "freeText:0")))
    [] 0 (Some 0)
    (SearchQueryBuilderContext.mk [] [] [] (fun _ => None)).

(** A catalog of two keys with one configured section over them. *)
Definition sample_sectioned_context : SearchQueryBuilderContext.t :=
  SearchQueryBuilderContext.mk []
    [(lit "level", Tag.mk (lit "level") (Some FIELD));
     (lit "browser.name", Tag.mk (lit "browser.name") (Some FIELD))]
    [FilterKeySection.mk (lit "all") (lit "All")
       [lit "browser.name"; lit "level"]]
    (fun _ => None).

(** The same catalog with a section that names a key the catalog does
    not have. *)
Definition sample_dangling_context : SearchQueryBuilderContext.t :=
  SearchQueryBuilderContext.mk []
    [(lit "level", Tag.mk (lit "level") (Some FIELD));
     (lit "browser.name", Tag.mk (lit "browser.name") (Some FIELD))]
    [FilterKeySection.mk (lit "all") (lit "All")
       [lit "browser.name"; lit "release"]]
    (fun _ => None).

(** ** Further functions of the source

    The rest of [freeText.tsx] that can be embedded: the tooltip
    predicate, what a render derives from its state, and the key handler;
    then the configure snippet of [gettingStartedDocs/ruby/rails.tsx]. *)

Definition ASTERISK : code_unit := 42%N.

Definition shouldHideInvalidTooltip
  (token : FreeTextToken.t) (inputValue : jsstring) (isOpen : bool) : bool :=
  match FreeTextToken.invalid token with
  | None => true
  | Some invalid_type =>
      if isOpen then true
      else
        match invalid_type with
        | FREE_TEXT_NOT_ALLOWED => JS.eqb inputValue []
        | WILDCARD_NOT_ALLOWED => negb (includes inputValue [ASTERISK])
        | OtherInvalidReason _ => false
        end
  end.

(** The state check at the top of a render: when the committed text is
    not the one seen by the previous render, [prevValue] and [inputValue]
    are both set to it.  The pair is [(prevValue, inputValue)]. *)
Definition syncTokenValue
  (trimmedTokenValue : jsstring) (st : jsstring * jsstring)
  : jsstring * jsstring :=
  if negb (JS.eqb trimmedTokenValue (fst st))
  then (trimmedTokenValue, trimmedTokenValue)
  else st.

(** The render that follows the state check. *)
Definition synced (r : Render.t) (prevValue : jsstring) : Render.t :=
  {| Render.item := Render.item r;
     Render.token := Render.token r;
     Render.state := Render.state r;
     Render.inputValue :=
       snd (syncTokenValue (trim (FreeTextToken.text (Render.token r)))
              (prevValue, Render.inputValue r));
     Render.selectionIndex := Render.selectionIndex r;
     Render.inputRef_selectionStart := Render.inputRef_selectionStart r;
     Render.context := Render.context r |}.

(** [displayTabbedMenu], a prop the render passes to the combobox. *)
Definition displayTabbedMenu (r : Render.t) : bool :=
  (length (Render.inputValue r) =? 0)
  && (length (SearchQueryBuilderContext.filterKeySections (Render.context r))
      >? 0).

(** [items], the candidates the render passes to the combobox. *)
Definition items
  (getEscapedKey : jsstring -> jsstring)
  (useFuzzySearch : list KeyItem.t -> option (jsstring -> list KeyItem.t))
  (r : Render.t) : completion (list Candidate) :=
  useSortItems getEscapedKey useFuzzySearch (Render.context r) (filterValue r).

(** The keyboard event, as far as [onKeyDown] reads it: [e.key] and the
    selection and the value of [e.currentTarget]. *)
Module KeyboardEvent.
Record t := mk {
  key : jsstring;
  selectionStart : option Z;
  selectionEnd : option Z;
  value : jsstring
}.
End KeyboardEvent.

(** What [onKeyDown] does: a state setter, letting the event propagate,
    or moving the focus of the list. *)
Inductive KeyDownEffect :=
| setter (e : Effect)
| continuePropagation
| setFocusedKey (key : jsstring).

(** [n === m] for a number that may be [null]. *)
Definition number_is (n : option Z) (m : Z) : bool :=
  match n with
  | Some n => n =? m
  | None => false
  end.

(** A key is truthy unless it is [null] or the empty string. *)
Definition truthy_key (k : option jsstring) : bool :=
  match k with
  | Some (_ :: _) => true
  | _ => false
  end.

Section KeyDown.

(** [isCtrlKeyPressed] is imported by the source; [getKeyBefore] and
    [getKeyAfter] are methods of [state.collection]. *)
Variable isCtrlKeyPressed : KeyboardEvent.t -> bool.
Variable getKeyBefore : ListState.t -> jsstring -> option jsstring.
Variable getKeyAfter : ListState.t -> jsstring -> option jsstring.

Definition onKeyDown (r : Render.t) (e : KeyboardEvent.t)
  : list KeyDownEffect :=
  List.map setter (updateSelectionIndex r)
  ++ (if isCtrlKeyPressed e then
        if JS.eqb (KeyboardEvent.key e) (lit "z") then
          if JS.eqb (Render.inputValue r) (trimmedTokenValue r)
          then [continuePropagation]
          else []
        else if JS.eqb (KeyboardEvent.key e) (lit "a")
        then [continuePropagation]
        else []
      else [])
  ++ (if number_is (KeyboardEvent.selectionStart e) 0
         && number_is (KeyboardEvent.selectionEnd e) 0
         && JS.eqb (KeyboardEvent.key e) (lit "Backspace")
      then
        if truthy_key (getKeyBefore (Render.state r) (Node.key (Render.item r)))
        then
          match getKeyBefore (Render.state r) (Node.key (Render.item r)) with
          | Some k => [setFocusedKey k]
          | None => []
          end
        else []
      else [])
  ++ (if number_is (KeyboardEvent.selectionStart e)
           (length (KeyboardEvent.value e))
         && number_is (KeyboardEvent.selectionEnd e)
              (length (KeyboardEvent.value e))
         && JS.eqb (KeyboardEvent.key e) (lit "Delete")
      then
        if truthy_key (getKeyAfter (Render.state r) (Node.key (Render.item r)))
        then
          match getKeyAfter (Render.state r) (Node.key (Render.item r)) with
          | Some k => [setFocusedKey k]
          | None => []
          end
        else []
      else []).

End KeyDown.

(** *** [gettingStartedDocs/ruby/rails.tsx] *)

(** The fields of [DocsParams] the snippets read. *)
Module Params.
Record t := mk {
  isProfilingSelected : bool;
  isPerformanceSelected : bool;
  dsn : jsstring
}.
End Params.

(** A template literal of several lines: the lines joined by newlines. *)
Definition lines (ls : list jsstring) : jsstring := join [LF] ls.

Definition getConfigureSnippet (params : Params.t) : jsstring :=
  lines
    [[];
     lit "Sentry.init do |config|";
     lit "  config.dsn = '" ++ Params.dsn params ++ lit "'";
     lit "  config.breadcrumbs_logger = [:active_support_logger, :http_logger]"]
  ++ (if Params.isPerformanceSelected params then
        lines
          [[];
           [];
           lit "  # Set traces_sample_rate to 1.0 to capture 100%";
           lit "  # of transactions for performance monitoring.";
           lit "  # We recommend adjusting this value in production.";
           lit "  config.traces_sample_rate = 1.0";
           lit "  # or";
           lit "  config.traces_sampler = lambda do |context|";
           lit "    true";
           lit "  end"]
      else [])
  ++ (if Params.isProfilingSelected params then
        lines
          [[];
           lit "  # Set profiles_sample_rate to profile 100%";
           lit "  # of sampled transactions.";
           lit "  # We recommend adjusting this value in production.";
           lit "  config.profiles_sample_rate = 1.0"]
      else [])
  ++ lines [[]; lit "end"].

(** ** Definitions used to state the further properties *)

(** A text with no white space at its start; at its end. *)
Definition starts_clean (s : jsstring) : Prop :=
  match s with
  | [] => True
  | c :: _ => is_white_space c = false
  end.

Definition ends_clean (s : jsstring) : Prop := starts_clean (rev s).

(** The tokens an action asks the reducer to replace. *)
Definition action_tokens (a : Action) : list FreeTextToken.t :=
  match a with
  | UPDATE_FREE_TEXT tokens _ _ => tokens
  | REPLACE_TOKENS_WITH_TEXT tokens _ => tokens
  end.

Definition searches (effects : list Effect) : list jsstring :=
  flat_map (fun e => match e with handleSearch q => [q] | _ => [] end) effects.

(** The local state a handler's reset leaves: the trimmed committed text
    and the selection of the DOM input. *)
Definition reset_state (r : Render.t) : jsstring * Z :=
  (trimmedTokenValue r, nullish (Render.inputRef_selectionStart r) 0).

(** The flat list of [useSortItems]: one candidate per key of the
    catalog. *)
Definition flatItems_of
  (getEscapedKey : jsstring -> jsstring) (ctx : SearchQueryBuilderContext.t)
  : list KeyItem.t :=
  List.map
    (fun filterKey =>
       createItem getEscapedKey filterKey
         (SearchQueryBuilderContext.getFieldDefinition ctx
            (Tag.key filterKey)))
    (Object_values (SearchQueryBuilderContext.filterKeys ctx)).

Definition APOSTROPHE : code_unit := 39%N.

(** The configure snippet before the DSN, up to the opening quote, and
    after its closing quote. *)
Definition configure_before : jsstring :=
  [LF] ++ lit "Sentry.init do |config|" ++ [LF] ++ lit "  config.dsn = ".

Definition configure_after (params : Params.t) : jsstring :=
  skipn (List.length configure_before + 2)
    (getConfigureSnippet
       (Params.mk (Params.isProfilingSelected params)
          (Params.isPerformanceSelected params) [])).

(** ** The JavaScript primitives: basic facts *)

Lemma eqb_eq (a b : jsstring) : JS.eqb a b = true <-> a = b.
Proof.
  revert b; induction a as [|x a IH]; intros [|y b]; simpl;
    try (split; [discriminate | congruence]); try tauto.
  rewrite andb_true_iff, N.eqb_eq, IH. split.
  - intros [-> ->]; reflexivity.
  - intros H; injection H; auto.
Qed.

Lemma eqb_refl (a : jsstring) : JS.eqb a a = true.
Proof. apply eqb_eq; reflexivity. Qed.

Lemma eqb_neq (a b : jsstring) : JS.eqb a b = false <-> a <> b.
Proof.
  rewrite <- eqb_eq. destruct (JS.eqb a b); split; congruence.
Qed.

Lemma length_app {A} (a b : list A) : length (a ++ b) = length a + length b.
Proof. unfold length. rewrite List.length_app. lia. Qed.

Lemma length_cons {A} (x : A) (a : list A) : length (x :: a) = length a + 1.
Proof. unfold length. simpl List.length. lia. Qed.

Lemma length_nonneg {A} (a : list A) : 0 <= length a.
Proof. unfold length. lia. Qed.

Lemma split_not_nil sep s : split sep s <> [].
Proof.
  destruct s as [|c r]; simpl; [discriminate|].
  destruct (N.eqb c sep); [discriminate|].
  destruct (split sep r); discriminate.
Qed.

Lemma join_cons sep w ws :
  ws <> [] -> join sep (w :: ws) = w ++ sep ++ join sep ws.
Proof. destruct ws; [congruence | reflexivity]. Qed.

(** Joining the words back with the separator gives the text. *)
Lemma join_split sep s : join [sep] (split sep s) = s.
Proof.
  induction s as [|c r IH]; [reflexivity|].
  simpl split. destruct (N.eqb c sep) eqn:E.
  - apply N.eqb_eq in E; subst c.
    rewrite join_cons by apply split_not_nil. simpl. now rewrite IH.
  - pose proof (split_not_nil sep r) as Hne.
    destruct (split sep r) as [|w ws]; [congruence|].
    destruct ws as [|w' ws'].
    + simpl in *. now rewrite IH.
    + change (join [sep] ((c :: w) :: w' :: ws'))
        with (c :: join [sep] (w :: w' :: ws')).
      now rewrite IH.
Qed.

(** No word of the split contains the separator. *)
Lemma split_no_sep sep s : Forall (fun w => ~ In sep w) (split sep s).
Proof.
  induction s as [|c r IH]; simpl.
  - constructor; [tauto | constructor].
  - destruct (N.eqb c sep) eqn:E.
    + constructor; [tauto | assumption].
    + destruct (split sep r) as [|w ws]; [constructor; [|constructor]|].
      * simpl. intros [H|[]]. subst. rewrite N.eqb_refl in E. discriminate.
      * inversion IH; subst. constructor; [|assumption].
        simpl. intros [H|H]; [|tauto].
        subst. rewrite N.eqb_refl in E. discriminate.
Qed.

(** The primitives on small inputs. *)

Example split_two_spaces :
  split SPACE (lit "a  b") = [lit "a"; []; lit "b"].
Proof. reflexivity. Qed.

Example split_empty : split SPACE [] = [[]].
Proof. reflexivity. Qed.

Example slice_negative_start : slice (lit "hello") (-3) None = lit "llo".
Proof. reflexivity. Qed.

Example slice_negative_stop : slice (lit "hello") 1 (Some (-1)) = lit "ell".
Proof. reflexivity. Qed.

Example slice_crossed : slice (lit "hello") 4 (Some 2) = [].
Proof. reflexivity. Qed.

Example trim_both_ends :
  trim (lit "  a b " ++ [LF]) = lit "a b".
Proof. reflexivity. Qed.

Example replace_first_only :
  replace (lit "x-y-z") (lit "-") (lit "+") = lit "x+y-z".
Proof. reflexivity. Qed.

Example includes_inside : includes (lit "filter:12") (lit "filter") = true.
Proof. reflexivity. Qed.

Example includes_absent : includes (lit "freeText:1") (lit "filter") = false.
Proof. reflexivity. Qed.

Example indexOf_absent :
  indexOf (JS.eqb (lit "c")) [lit "a"; lit "b"] = -1.
Proof. reflexivity. Qed.

Example Number_toString_12 : Number_toString 12 = lit "12".
Proof. reflexivity. Qed.

Example Number_toString_0 : Number_toString 0 = lit "0".
Proof. reflexivity. Qed.

Example parseInt_prefix : parseInt (Some (lit "12abc")) = Some 12.
Proof. reflexivity. Qed.

Example parseInt_no_digit : parseInt (Some (lit "abc")) = None.
Proof. reflexivity. Qed.

(** The functions of the source on small inputs. *)

Example getWordAtCursorPosition_brow :
  getWordAtCursorPosition (lit "before brow after") 9 = lit "brow".
Proof. reflexivity. Qed.

Example getWordAtCursorPosition_at_boundary :
  getWordAtCursorPosition (lit "ab cd") 3 = lit "ab".
Proof. reflexivity. Qed.

Example getInitialFilterKeyText_function :
  getInitialFilterKeyText (lit "p95")
    (Some (FieldDefinition.mk FUNCTION (Some DURATION) None
             (Some [AggregateParameter.mk (lit "a") (Some (lit "1"));
                    AggregateParameter.mk (lit "b") None])))
  = lit "p95(1)".
Proof. reflexivity. Qed.

Example calculateNextFocusForParen_next_slot :
  calculateNextFocusForParen sample_Token_str sample_current
  = {| FocusOverride.itemKey := lit "freeText:3";
       FocusOverride.part := None |}.
Proof. reflexivity. Qed.

(** A section child that the catalog lacks but [Object.prototype] has is
    read as the inherited member: no throw. *)
Example createSection_inherited_child :
  createSection (fun key => key)
    (FilterKeySection.mk (lit "all") (lit "All") [lit "level"; lit "toString"])
    [(lit "level", Tag.mk (lit "level") (Some FIELD))] (fun _ => None)
  = Normal
      (KeySectionItem.mk (lit "all") (lit "all") (lit "All")
         [item_of_tag
            (createItem (fun key => key) (Tag.mk (lit "level") (Some FIELD))
               None);
          item_of_inherited (lit "toString") None]).
Proof. reflexivity. Qed.

(** Beyond 2^53 the index of the paren rule is a rounded double. *)
Example calculateNextFocusForParen_rounds :
  calculateNextFocusForParen sample_Token_str
    (sample_free_node "freeText:9007199254740992" "typed (")
  = {| FocusOverride.itemKey := lit "freeText:9007199254740992";
       FocusOverride.part := None |}.
Proof. vm_compute. reflexivity. Qed.

Example JSNumber_toString_2_60 :
  JSNumber.toString (JSNumber.of_Z (2 ^ 60)) = lit "1152921504606847000".
Proof. vm_compute. reflexivity. Qed.

Example JSNumber_toString_2_70 :
  JSNumber.toString (JSNumber.of_Z (2 ^ 70)) = lit "1.1805916207174113e+21".
Proof. vm_compute. reflexivity. Qed.

Example JSNumber_toString_10_23 :
  JSNumber.toString (JSNumber.of_Z (10 ^ 23)) = lit "1e+23".
Proof. vm_compute. reflexivity. Qed.

Example JSNumber_succ_tie :
  JSNumber.toString (JSNumber.succ (JSNumber.of_Z 9007199254740994))
  = lit "9007199254740996".
Proof. vm_compute. reflexivity. Qed.

Example JSNumber_of_Z_overflow :
  JSNumber.of_Z (2 ^ 1024) = JSNumber.Infinity false.
Proof. vm_compute. reflexivity. Qed.

(** With no focused key, [indexOf] is [-1] and [slice(0, -1)] keeps all
    keys but the last. *)
Example countPreviousItemsOfType_no_focus :
  countPreviousItemsOfType sample_Token_str
    (ListState.mk (ListState.collection sample_state) None) FILTER
  = 3.
Proof. reflexivity. Qed.

(** ** The word scan *)

Lemma boundary_nonneg words i : 0 <= boundary words i.
Proof.
  revert i; induction words as [|w ws IH]; intros i; simpl; [lia|].
  pose proof (length_nonneg w).
  destruct i; [lia|]. specialize (IH i). lia.
Qed.

(** Past the last word the boundary stays at the total. *)
Lemma boundary_beyond words : forall i,
  (List.length words <= S i)%nat ->
  boundary words i = boundary words (List.length words).
Proof.
  induction words as [|w ws IH]; intros i Hi; [reflexivity|].
  simpl in *. destruct i as [|i].
  - destruct ws; [reflexivity | simpl in Hi; lia].
  - rewrite (IH i) by lia. reflexivity.
Qed.

Lemma boundary_total_join sep words :
  words <> [] ->
  boundary words (List.length words) = length (join [sep] words) + 1.
Proof.
  induction words as [|w ws IH]; [congruence|]. intros _.
  destruct ws as [|w' ws'].
  - simpl. lia.
  - rewrite join_cons by discriminate.
    rewrite !length_app. simpl List.length in *. simpl boundary in *.
    rewrite IH by discriminate.
    change (length [sep]) with 1. lia.
Qed.

(** The cumulative boundaries of a text sum to its length plus one. *)
Lemma boundary_last_split text :
  boundary (split SPACE text) (List.length (split SPACE text) - 1)
  = length text + 1.
Proof.
  rewrite boundary_beyond by lia.
  rewrite (boundary_total_join SPACE) by apply split_not_nil.
  now rewrite join_split.
Qed.

(** What a successful scan returns, by index: the first word whose
    cumulative boundary reaches the cursor. *)
Lemma wordScan_index words : forall cc c cc' w,
  wordScan words cc c = Some (cc', w) ->
  exists i, nth_error words i = Some w /\
            cc' = cc + boundary words i /\
            c <= cc' /\
            forall j, (j < i)%nat -> cc + boundary words j < c.
Proof.
  induction words as [|w0 rest IH]; intros cc c cc' w H; [discriminate|].
  simpl in H.
  destruct (cc + (length w0 + 1) >=? c) eqn:E.
  - injection H as <- <-. exists 0%nat. simpl.
    repeat split; try lia.
  - apply IH in H. destruct H as (i & Hn & Hcc & Hc & Hlt).
    exists (S i). simpl. repeat split; try assumption; try lia.
    intros [|j] Hj; [lia|]. specialize (Hlt j ltac:(lia)). lia.
Qed.

(** The scan fails exactly when the cursor is beyond the last boundary. *)
Lemma wordScan_None words : forall cc c,
  wordScan words cc c = None <->
  words = [] \/ cc + boundary words (List.length words) < c.
Proof.
  induction words as [|w0 rest IH]; intros cc c; [simpl; tauto|].
  simpl wordScan. simpl List.length. simpl boundary.
  pose proof (boundary_nonneg rest (List.length rest)).
  destruct (cc + (length w0 + 1) >=? c) eqn:E.
  - split; [discriminate|]. intros [?|?]; [discriminate | lia].
  - rewrite IH. split.
    + intros [->|?]; right; simpl; lia.
    + intros [?|?]; [discriminate|].
      destruct rest; [now left | right; lia].
Qed.

(** What a successful scan returns, by position in the text. *)
Lemma wordScan_located words : forall prefix c cc' w,
  words <> [] ->
  Forall (fun x => ~ In SPACE x) words ->
  (prefix = [] \/ (exists p, prefix = p ++ [SPACE]) /\ length prefix < c) ->
  wordScan words (length prefix) c = Some (cc', w) ->
  exists pre post,
    located (prefix ++ join [SPACE] words) c pre w post /\
    cc' = length pre + length w + 1.
Proof.
  induction words as [|w0 rest IH]; intros prefix c cc' w Hne Hns Hpre H;
    [congruence|].
  simpl in H. inversion Hns as [|? ? Hw0 Hrest]; subst.
  destruct (length prefix + (length w0 + 1) >=? c) eqn:E.
  - injection H as <- <-.
    exists prefix.
    destruct rest as [|w1 rest'].
    + exists []. split; [|lia].
      unfold located. simpl join. rewrite app_nil_r.
      repeat split; auto; lia.
    + exists (SPACE :: join [SPACE] (w1 :: rest')).
      rewrite join_cons by discriminate.
      split; [|lia].
      unfold located.
      repeat split; auto; try lia. right. eauto.
  - destruct rest as [|w1 rest']; [discriminate|].
    specialize (IH (prefix ++ w0 ++ [SPACE]) c cc' w).
    replace (length (prefix ++ w0 ++ [SPACE]))
      with (length prefix + (length w0 + 1)) in IH
      by (rewrite !length_app; change (length [SPACE]) with 1; lia).
    destruct IH as (pre & post & Hloc & Hcc); auto; try discriminate.
    + right. split; [|lia]. exists (prefix ++ w0).
      now rewrite <- app_assoc.
    + exists pre, post.
      rewrite join_cons by discriminate.
      replace (prefix ++ w0 ++ [SPACE] ++ join [SPACE] (w1 :: rest'))
        with ((prefix ++ w0 ++ [SPACE]) ++ join [SPACE] (w1 :: rest'))
        by (now rewrite <- !app_assoc).
      auto.
Qed.

Lemma getWordAtCursorPosition_loop_scan words : forall cc c,
  getWordAtCursorPosition_loop words cc c = option_map snd (wordScan words cc c).
Proof.
  induction words as [|w0 rest IH]; intros cc c; simpl; [reflexivity|].
  destruct (cc + (length w0 + 1) >=? c); [reflexivity | apply IH].
Qed.

Lemma replaceFocusedWordWithFilter_loop_scan
  gdfv value key getFD words : forall cc c,
  replaceFocusedWordWithFilter_loop gdfv value key getFD words cc c
  = option_map
      (fun found =>
         trim
           (trim (slice value 0
                    (Some (fst found - length (snd found) - 1)))
            ++ (lit " " ++ getInitialFilterText gdfv key (getFD key)
                ++ lit " ")
            ++ trim (slice value (fst found) None)))
      (wordScan words cc c).
Proof.
  induction words as [|w0 rest IH]; intros cc c; simpl; [reflexivity|].
  destruct (cc + (length w0 + 1) >=? c); [reflexivity | apply IH].
Qed.

(** The scan over the words of a text, from the start. *)
Lemma wordScan_text text c cc' w :
  wordScan (split SPACE text) 0 c = Some (cc', w) ->
  exists pre post,
    located text c pre w post /\ cc' = length pre + length w + 1.
Proof.
  intros H.
  destruct (wordScan_located (split SPACE text) [] c cc' w) as
    (pre & post & Hloc & Hcc); auto.
  - apply split_not_nil.
  - apply split_no_sep.
  - simpl in Hloc. rewrite join_split in Hloc. eauto.
Qed.

Lemma wordScan_text_None text c :
  wordScan (split SPACE text) 0 c = None <-> length text + 2 <= c.
Proof.
  rewrite wordScan_None.
  rewrite <- (boundary_beyond _ (List.length (split SPACE text) - 1)) by lia.
  rewrite boundary_last_split.
  pose proof (split_not_nil SPACE text). split.
  - intros [?|?]; [contradiction | lia].
  - right; lia.
Qed.

(** ** Word locator and focused-word replacer: the fallback *)

(** C10: the cumulative boundaries of the words of a text sum to its
    length plus one, so for every cursor offset up to [text.length + 1]
    the scan of [getWordAtCursorPosition] and the scan of
    [replaceFocusedWordWithFilter] both match a word; the fallback of
    either function is reached only from a cursor offset of at least
    [text.length + 2]. *)
Theorem word_scan_fallback_unreachable
  (getDefaultFilterValue : jsstring -> option FieldDefinition.t -> jsstring)
  (getFieldDefinition : jsstring -> option FieldDefinition.t)
  (text key : jsstring) (cursorOffset : Z) :
  boundary (split SPACE text) (List.length (split SPACE text) - 1)
  = length text + 1 /\
  (cursorOffset <= length text + 1 ->
   getWordAtCursorPosition_loop (split SPACE text) 0 cursorOffset <> None /\
   replaceFocusedWordWithFilter_loop getDefaultFilterValue text key
     getFieldDefinition (split SPACE text) 0 cursorOffset <> None) /\
  (getWordAtCursorPosition_loop (split SPACE text) 0 cursorOffset = None ->
   length text + 2 <= cursorOffset) /\
  (replaceFocusedWordWithFilter_loop getDefaultFilterValue text key
     getFieldDefinition (split SPACE text) 0 cursorOffset = None ->
   length text + 2 <= cursorOffset).
Proof.
  rewrite getWordAtCursorPosition_loop_scan,
    replaceFocusedWordWithFilter_loop_scan.
  pose proof (wordScan_text_None text cursorOffset) as HN.
  split; [apply boundary_last_split|].
  destruct (wordScan (split SPACE text) 0 cursorOffset) as [found|]; simpl.
  - repeat split; try discriminate.
  - assert (length text + 2 <= cursorOffset) by (now apply HN).
    repeat split; auto; lia.
Qed.

Lemma word_scan_fallback_unreachable_witness :
  (4 <= length (lit "a b") + 1 /\
   getWordAtCursorPosition_loop (split SPACE (lit "a b")) 0 4 <> None /\
   replaceFocusedWordWithFilter_loop (fun _ _ => []) (lit "a b") (lit "k")
     (fun _ => None) (split SPACE (lit "a b")) 0 4 <> None) /\
  (getWordAtCursorPosition_loop (split SPACE (lit "a b")) 0 5 = None /\
   replaceFocusedWordWithFilter_loop (fun _ _ => []) (lit "a b") (lit "k")
     (fun _ => None) (split SPACE (lit "a b")) 0 5 = None /\
   length (lit "a b") + 2 <= 5).
Proof.
  destruct (word_scan_fallback_unreachable
              (fun _ _ => []) (fun _ => None) (lit "a b") (lit "k") 4)
    as (_ & Hmatch & _ & _).
  destruct (word_scan_fallback_unreachable
              (fun _ _ => []) (fun _ => None) (lit "a b") (lit "k") 5)
    as (_ & _ & Hword & Hreplace).
  split.
  - split; [vm_compute; discriminate|].
    apply Hmatch. vm_compute; discriminate.
  - split; [reflexivity|]. split; [reflexivity|].
    apply Hword. reflexivity.
Defined.

(** ** Word locator *)

(** C5: for a cursor offset within [0, text.length] the word locator
    returns the first word of [text.split(' ')] whose cumulative boundary
    (length plus one per word) reaches the cursor, and that word is a
    contiguous piece of the text without a space; when the cursor is
    beyond every boundary it returns the whole text; an empty text gives
    the empty string, whatever the cursor. *)
Theorem getWordAtCursorPosition_locates (text : jsstring) (cursorOffset : Z) :
  (0 <= cursorOffset <= length text ->
   exists i pre post,
     nth_error (split SPACE text) i
     = Some (getWordAtCursorPosition text cursorOffset) /\
     cursorOffset <= boundary (split SPACE text) i /\
     (forall j, (j < i)%nat -> boundary (split SPACE text) j < cursorOffset) /\
     text = pre ++ getWordAtCursorPosition text cursorOffset ++ post /\
     ~ In SPACE (getWordAtCursorPosition text cursorOffset)) /\
  (boundary (split SPACE text) (List.length (split SPACE text) - 1)
   < cursorOffset ->
   getWordAtCursorPosition text cursorOffset = text) /\
  getWordAtCursorPosition [] cursorOffset = [].
Proof.
  unfold getWordAtCursorPosition.
  rewrite getWordAtCursorPosition_loop_scan.
  pose proof (wordScan_text_None text cursorOffset) as HN.
  rewrite boundary_last_split.
  split; [|split].
  - intros Hc.
    destruct (wordScan (split SPACE text) 0 cursorOffset) as [[cc' w]|] eqn:E.
    + simpl.
      destruct (wordScan_index _ _ _ _ _ E) as (i & Hn & Hcc & Hle & Hlt).
      destruct (wordScan_text _ _ _ _ E) as (pre & post & Hloc & _).
      destruct Hloc as (Heq & Hns & _).
      exists i, pre, post. repeat split; auto; lia.
    + assert (length text + 2 <= cursorOffset) by (now apply HN). lia.
  - intros Hc.
    destruct (wordScan (split SPACE text) 0 cursorOffset) as [[cc' w]|] eqn:E;
      [|reflexivity].
    assert (Some (cc', w) = None) by (apply HN; lia).
    discriminate.
  - simpl. destruct (1 >=? cursorOffset); reflexivity.
Qed.

Lemma getWordAtCursorPosition_locates_witness :
  (0 <= 9 <= length (lit "before brow after") /\
   getWordAtCursorPosition (lit "before brow after") 9 = lit "brow" /\
   exists i pre post,
     nth_error (split SPACE (lit "before brow after")) i
     = Some (getWordAtCursorPosition (lit "before brow after") 9) /\
     9 <= boundary (split SPACE (lit "before brow after")) i /\
     (forall j, (j < i)%nat ->
                boundary (split SPACE (lit "before brow after")) j < 9) /\
     lit "before brow after"
     = pre ++ getWordAtCursorPosition (lit "before brow after") 9 ++ post /\
     ~ In SPACE (getWordAtCursorPosition (lit "before brow after") 9)) /\
  getWordAtCursorPosition (lit "before brow after") 30
  = lit "before brow after".
Proof.
  destruct (getWordAtCursorPosition_locates (lit "before brow after") 9)
    as (Hin & _ & _).
  destruct (getWordAtCursorPosition_locates (lit "before brow after") 30)
    as (_ & Hpast & _).
  split.
  - split; [vm_compute; split; discriminate|].
    split; [reflexivity|].
    apply Hin. vm_compute; split; discriminate.
  - apply Hpast. reflexivity.
Defined.

(** ** The located word is unique *)

Lemma app_eq_same_length {A} (a b c d : list A) :
  a ++ b = c ++ d -> List.length a = List.length c -> a = c /\ b = d.
Proof.
  revert c; induction a as [|x a IH]; intros [|y c] H Hlen;
    simpl in *; try discriminate.
  - auto.
  - injection H as -> H. destruct (IH c H) as [-> ->]; [lia | auto].
Qed.

(** A text that starts with a space-free word has no space among the
    units of that word. *)
Lemma no_space_before_word_end (w rest l tail : jsstring) :
  ~ In SPACE w ->
  w ++ rest = l ++ SPACE :: tail ->
  length w <= length l.
Proof.
  intros Hns Heq.
  destruct (app_eq_app _ _ _ _ Heq) as [m [[Hw Hm]|[Hl _]]].
  - destruct m as [|x m].
    + rewrite app_nil_r in Hw. subst l. lia.
    + exfalso. apply Hns. injection Hm as <- _.
      rewrite Hw. apply in_or_app. right. now left.
  - rewrite Hl, length_app. pose proof (length_nonneg m). lia.
Qed.

Lemma located_pre_not_longer text c pre1 w1 post1 pre2 w2 post2 :
  located text c pre1 w1 post1 ->
  located text c pre2 w2 post2 ->
  length pre2 <= length pre1.
Proof.
  intros (Heq1 & Hns1 & _ & _ & Hc1) (Heq2 & _ & Hpre2 & _ & _).
  destruct Hpre2 as [->|[[p2 ->] Hlt]]; [apply length_nonneg|].
  destruct (Z.le_gt_cases (length (p2 ++ [SPACE])) (length pre1)) as [|Hgt];
    [assumption|exfalso].
  rewrite length_app in Hgt, Hlt. change (length [SPACE]) with 1 in Hgt, Hlt.
  rewrite Heq1 in Heq2. rewrite <- app_assoc in Heq2. simpl in Heq2.
  destruct (app_eq_app _ _ _ _ Heq2) as [m [[Hp Hm]|[Hp Hm]]].
  - rewrite Hp, length_app in Hgt, Hc1.
    destruct m as [|x m]; [|rewrite length_cons in Hgt;
                             pose proof (length_nonneg m); lia].
    symmetry in Hm.
    apply (no_space_before_word_end w1 post1 [] (w2 ++ post2)) in Hm;
      [|assumption].
    change (length (@nil code_unit)) with 0 in *. lia.
  - apply no_space_before_word_end in Hm; [|assumption].
    rewrite Hp, length_app in Hlt. lia.
Qed.

Lemma word_end_unique (w1 post1 w2 post2 : jsstring) :
  ~ In SPACE w1 ->
  (post2 = [] \/ exists q, post2 = SPACE :: q) ->
  w1 ++ post1 = w2 ++ post2 ->
  length w1 <= length w2.
Proof.
  intros Hns [->|[q ->]] Heq.
  - rewrite app_nil_r in Heq. rewrite <- Heq, length_app.
    pose proof (length_nonneg post1). lia.
  - now apply (no_space_before_word_end w1 post1 w2 q).
Qed.

(** At most one word of a text is located by a cursor offset. *)
Lemma located_unique text c pre1 w1 post1 pre2 w2 post2 :
  located text c pre1 w1 post1 ->
  located text c pre2 w2 post2 ->
  pre1 = pre2 /\ w1 = w2 /\ post1 = post2.
Proof.
  intros H1 H2.
  pose proof (located_pre_not_longer _ _ _ _ _ _ _ _ H1 H2) as Hle1.
  pose proof (located_pre_not_longer _ _ _ _ _ _ _ _ H2 H1) as Hle2.
  destruct H1 as (Heq1 & Hns1 & _ & Hpost1 & _).
  destruct H2 as (Heq2 & Hns2 & _ & Hpost2 & _).
  rewrite Heq1 in Heq2.
  destruct (app_eq_same_length _ _ _ _ Heq2) as [-> Hrest];
    [unfold length in *; lia|].
  pose proof (word_end_unique _ _ _ _ Hns1 Hpost2 Hrest) as Hw1.
  pose proof (word_end_unique _ _ _ _ Hns2 Hpost1 (eq_sym Hrest)) as Hw2.
  destruct (app_eq_same_length _ _ _ _ Hrest) as [-> ->];
    [unfold length in *; lia | auto].
Qed.

(** ** Focused-word replacer *)

Lemma slice_prefix {A} (a b : list A) :
  slice (a ++ b) 0 (Some (length a)) = a.
Proof.
  unfold slice, rel_index.
  pose proof (length_nonneg a). pose proof (length_nonneg b).
  rewrite length_app.
  destruct (0 <? 0) eqn:E0; [apply Z.ltb_lt in E0; lia|].
  destruct (length a <? 0) eqn:E1; [apply Z.ltb_lt in E1; lia|].
  rewrite !Z.min_l by lia.
  simpl skipn. rewrite Z.sub_0_r. unfold length. rewrite Nat2Z.id.
  rewrite firstn_app, firstn_all, Nat.sub_diag. simpl. apply app_nil_r.
Qed.

Lemma slice_suffix {A} (a b : list A) :
  slice (a ++ b) (length a) None = b.
Proof.
  unfold slice, rel_index.
  pose proof (length_nonneg a). pose proof (length_nonneg b).
  rewrite length_app.
  destruct (length a <? 0) eqn:E1; [apply Z.ltb_lt in E1; lia|].
  rewrite Z.min_l by lia.
  replace (length a + length b - length a) with (length b) by lia.
  unfold length. rewrite !Nat2Z.id.
  rewrite skipn_app, skipn_all, Nat.sub_diag. simpl. apply firstn_all.
Qed.

Lemma slice_past_end {A} (a : list A) k :
  length a <= k -> slice a k None = [].
Proof.
  intros Hk. unfold slice, rel_index.
  pose proof (length_nonneg a).
  destruct (k <? 0) eqn:E1; [apply Z.ltb_lt in E1; lia|].
  rewrite Z.min_r by lia. rewrite Z.sub_diag. reflexivity.
Qed.

Lemma trim_cons_white_space c s :
  is_white_space c = true -> trim (c :: s) = trim s.
Proof. intros H. unfold trim. simpl. now rewrite H. Qed.

(** The suffix the source slices, from the boundary on, trims to the same
    text as everything after the word. *)
Lemma trim_slice_after_word pre w post :
  (post = [] \/ exists q, post = SPACE :: q) ->
  trim (slice (pre ++ w ++ post) (length pre + length w + 1) None)
  = trim post.
Proof.
  intros [->|[q ->]].
  - rewrite slice_past_end; [reflexivity|].
    rewrite !length_app. change (length (@nil code_unit)) with 0. lia.
  - replace (pre ++ w ++ SPACE :: q) with ((pre ++ w ++ [SPACE]) ++ q)
      by (now rewrite <- !app_assoc).
    replace (length pre + length w + 1) with (length (pre ++ w ++ [SPACE]))
      by (rewrite !length_app; change (length [SPACE]) with 1; lia).
    rewrite slice_suffix.
    symmetry. apply trim_cons_white_space. reflexivity.
Qed.

(** C3: replacing the focused word gives the trimmed text before the
    located word, a space, the synthesized filter text of the key, a
    space and the trimmed text after the word, the whole trimmed, the
    located word being the one the word locator returns; with the cursor
    past all words the text is returned unchanged; and the example of the
    source, with a string-kind field whose default filter value is empty,
    gives ["before browser.name: after"]. *)
Theorem replaceFocusedWordWithFilter_splices
  (getDefaultFilterValue : jsstring -> option FieldDefinition.t -> jsstring)
  (getFieldDefinition : jsstring -> option FieldDefinition.t)
  (text key : jsstring) (cursorOffset : Z) :
  (cursorOffset <= length text + 1 ->
   exists pre word post, located text cursorOffset pre word post) /\
  (forall pre word post,
     located text cursorOffset pre word post ->
     word = getWordAtCursorPosition text cursorOffset /\
     replaceFocusedWordWithFilter getDefaultFilterValue text cursorOffset key
       getFieldDefinition
     = trim (trim pre ++ lit " "
             ++ getInitialFilterText getDefaultFilterValue key
                  (getFieldDefinition key)
             ++ lit " " ++ trim post)) /\
  (boundary (split SPACE text) (List.length (split SPACE text) - 1)
   < cursorOffset ->
   replaceFocusedWordWithFilter getDefaultFilterValue text cursorOffset key
     getFieldDefinition = text) /\
  (forall fd,
     getFieldDefinition (lit "browser.name") = Some fd ->
     FieldDefinition.valueType fd = Some STRING ->
     is_FUNCTION (FieldDefinition.kind fd) = false ->
     getDefaultFilterValue (lit "browser.name") (Some fd) = [] ->
     replaceFocusedWordWithFilter getDefaultFilterValue
       (lit "before brow after") 9 (lit "browser.name") getFieldDefinition
     = lit "before browser.name: after").
Proof.
  assert (cursorOffset <= length text + 1 ->
          exists cc' pre word post,
            wordScan (split SPACE text) 0 cursorOffset = Some (cc', word) /\
            located text cursorOffset pre word post /\
            cc' = length pre + length word + 1) as Hscan.
  { intros Hc.
    destruct (wordScan (split SPACE text) 0 cursorOffset) as [[cc' w]|] eqn:E.
    - destruct (wordScan_text _ _ _ _ E) as (pre & post & Hloc & Hcc).
      exists cc', pre, w, post. auto.
    - apply wordScan_text_None in E. lia. }
  split; [|split; [|split]].
  - intros Hc. destruct (Hscan Hc) as (cc' & pre & w & post & _ & Hloc & _).
    eauto.
  - intros pre word post Hloc.
    assert (cursorOffset <= length text + 1) as Hc.
    { destruct Hloc as (Heq & _ & _ & _ & Hc). rewrite Heq, !length_app.
      pose proof (length_nonneg post). lia. }
    destruct (Hscan Hc) as (cc' & pre' & w' & post' & E & Hloc' & Hcc).
    destruct (located_unique _ _ _ _ _ _ _ _ Hloc Hloc') as (<- & <- & <-).
    unfold replaceFocusedWordWithFilter, getWordAtCursorPosition.
    rewrite replaceFocusedWordWithFilter_loop_scan,
      getWordAtCursorPosition_loop_scan, E.
    split; [reflexivity|].
    destruct Hloc as (Heq & _ & _ & Hpost & _).
    simpl. subst cc'.
    replace (length pre + length word + 1 - length word - 1)
      with (length pre) by lia.
    rewrite Heq at 1 2.
    rewrite slice_prefix, trim_slice_after_word by assumption.
    now rewrite <- !app_assoc.
  - rewrite boundary_last_split. intros Hc.
    unfold replaceFocusedWordWithFilter.
    rewrite replaceFocusedWordWithFilter_loop_scan.
    assert (wordScan (split SPACE text) 0 cursorOffset = None) as ->
      by (apply wordScan_text_None; lia).
    reflexivity.
  - intros fd Hfd Hvt Hkind Hdef.
    unfold replaceFocusedWordWithFilter.
    rewrite replaceFocusedWordWithFilter_loop_scan.
    unfold getInitialFilterText, getInitialFilterKeyText.
    rewrite Hfd, Hvt, Hkind, Hdef.
    vm_compute. reflexivity.
Qed.

Lemma replaceFocusedWordWithFilter_splices_witness :
  located (lit "before brow after") 9 (lit "before ") (lit "brow")
    (lit " after") /\
  replaceFocusedWordWithFilter (fun _ _ => [])
    (lit "before brow after") 9 (lit "browser.name")
    (fun _ => Some (FieldDefinition.mk FIELD (Some STRING) None None))
  = trim (trim (lit "before ") ++ lit " " ++ lit "browser.name:" ++ lit " "
          ++ trim (lit " after")) /\
  replaceFocusedWordWithFilter (fun _ _ => [])
    (lit "before brow after") 9 (lit "browser.name")
    (fun _ => Some (FieldDefinition.mk FIELD (Some STRING) None None))
  = lit "before browser.name: after" /\
  replaceFocusedWordWithFilter (fun _ _ => [])
    (lit "before brow after") 30 (lit "browser.name")
    (fun _ => Some (FieldDefinition.mk FIELD (Some STRING) None None))
  = lit "before brow after".
Proof.
  assert (located (lit "before brow after") 9 (lit "before ") (lit "brow")
            (lit " after")) as Hloc.
  { unfold located. repeat split.
    - vm_compute. intros [H|[H|[H|[H|[]]]]]; discriminate.
    - right. split; [exists (lit "before"); reflexivity | reflexivity].
    - right. exists (lit "after"). reflexivity.
    - vm_compute. discriminate. }
  destruct (replaceFocusedWordWithFilter_splices (fun _ _ => [])
              (fun _ => Some (FieldDefinition.mk FIELD (Some STRING) None None))
              (lit "before brow after") (lit "browser.name") 9)
    as (_ & Hsplice & _ & Hexample).
  destruct (replaceFocusedWordWithFilter_splices (fun _ _ => [])
              (fun _ => Some (FieldDefinition.mk FIELD (Some STRING) None None))
              (lit "before brow after") (lit "browser.name") 30)
    as (_ & _ & Hpast & _).
  split; [exact Hloc|].
  split; [apply (Hsplice _ _ _ Hloc)|].
  split.
  - apply (Hexample (FieldDefinition.mk FIELD (Some STRING) None None));
      reflexivity.
  - apply Hpast. reflexivity.
Defined.

(** ** Default value synthesizer *)

(** C6: the synthesized filter text is the key text, a colon and the
    default value, with [>] before the default value exactly for the
    integer, number, duration and percentage kinds; every other kind, and
    a [null] field definition, gets no comparison prefix.  A number-kind
    key with default ["1"] gives [key:>1], a string-kind key with default
    ["foo"] gives [key:foo]. *)
Theorem getInitialFilterText_synthesis
  (getDefaultFilterValue : jsstring -> option FieldDefinition.t -> jsstring)
  (key : jsstring) (fieldDefinition : option FieldDefinition.t) :
  getInitialFilterText getDefaultFilterValue key fieldDefinition
  = getInitialFilterKeyText key fieldDefinition
    ++ lit ":"
    ++ (if spec_is_comparison_kind fieldDefinition then lit ">" else [])
    ++ getDefaultFilterValue key fieldDefinition /\
  getInitialFilterText getDefaultFilterValue key None
  = key ++ lit ":" ++ getDefaultFilterValue key None /\
  (forall fd,
     FieldDefinition.valueType fd = Some NUMBER ->
     is_FUNCTION (FieldDefinition.kind fd) = false ->
     getDefaultFilterValue key (Some fd) = lit "1" ->
     getInitialFilterText getDefaultFilterValue key (Some fd)
     = key ++ lit ":>1") /\
  (forall fd,
     FieldDefinition.valueType fd = Some STRING ->
     is_FUNCTION (FieldDefinition.kind fd) = false ->
     getDefaultFilterValue key (Some fd) = lit "foo" ->
     getInitialFilterText getDefaultFilterValue key (Some fd)
     = key ++ lit ":foo").
Proof.
  split; [|split; [reflexivity|split]].
  - unfold getInitialFilterText, spec_is_comparison_kind.
    destruct fieldDefinition as [fd|]; [|reflexivity].
    destruct (FieldDefinition.valueType fd) as [[]|]; reflexivity.
  - intros fd Hvt Hkind Hdef.
    unfold getInitialFilterText, getInitialFilterKeyText.
    now rewrite Hvt, Hkind, Hdef.
  - intros fd Hvt Hkind Hdef.
    unfold getInitialFilterText, getInitialFilterKeyText.
    now rewrite Hvt, Hkind, Hdef.
Qed.

Lemma getInitialFilterText_synthesis_witness :
  getInitialFilterText (fun _ _ => lit "1") (lit "count")
    (Some (FieldDefinition.mk FIELD (Some NUMBER) None None))
  = lit "count:>1" /\
  getInitialFilterText (fun _ _ => lit "foo") (lit "browser.name")
    (Some (FieldDefinition.mk FIELD (Some STRING) None None))
  = lit "browser.name:foo".
Proof.
  split.
  - apply (getInitialFilterText_synthesis (fun _ _ => lit "1") (lit "count")
             None);
      reflexivity.
  - apply (getInitialFilterText_synthesis (fun _ _ => lit "foo")
             (lit "browser.name") None);
      reflexivity.
Defined.

(** ** Focus router *)

Lemma indexOf_first {A} (is_x : A -> bool) (before : list A) x after :
  is_x x = true ->
  (forall y, In y before -> is_x y = false) ->
  indexOf is_x (before ++ x :: after) = length before.
Proof.
  intros Hx. induction before as [|y before IH]; intros Hb; simpl.
  - now rewrite Hx.
  - rewrite (Hb y) by (now left).
    rewrite IH by (intros; apply Hb; now right).
    pose proof (length_nonneg before).
    destruct (length before <? 0) eqn:E; [apply Z.ltb_lt in E; lia|].
    rewrite length_cons. reflexivity.
Qed.

Lemma fold_left_count {A} (p : A -> bool) (l : list A) : forall acc,
  fold_left (fun count next => if p next then count + 1 else count) l acc
  = acc + length (List.filter p l).
Proof.
  induction l as [|x l IH]; intros acc; simpl.
  - change (length (@nil A)) with 0. lia.
  - rewrite IH. destruct (p x); [rewrite length_cons|]; lia.
Qed.

Lemma filter_map_key (p : jsstring -> bool) (q : Node.t -> bool) nodes :
  (forall n, In n nodes -> p (Node.key n) = q n) ->
  List.length (List.filter p (List.map Node.key nodes))
  = List.length (List.filter q nodes).
Proof.
  induction nodes as [|n nodes IH]; intros H; [reflexivity|].
  simpl. rewrite (H n) by (now left).
  destruct (q n); simpl; rewrite IH; auto; intros; apply H; now right.
Qed.

Lemma countPreviousItemsOfType_FILTER
  (Token_str : Token -> jsstring) (state : ListState.t)
  (before after : list Node.t) (current : Node.t) :
  ListState.collection state = before ++ current :: after ->
  ListState.focusedKey state = Some (Node.key current) ->
  (forall n, In n before -> Node.key n <> Node.key current) ->
  (forall n, In n before ->
     includes (Node.key n) (Token_str FILTER)
     = Token_eqb (type (Node.value n)) FILTER) ->
  countPreviousItemsOfType Token_str state FILTER = count_FILTER before.
Proof.
  intros Hcol Hfocus Huniq Hkeys.
  unfold countPreviousItemsOfType, ListState.getKeys, count_FILTER.
  rewrite Hcol, Hfocus, map_app. simpl List.map.
  rewrite indexOf_first.
  - rewrite slice_prefix, fold_left_count.
    unfold length.
    rewrite (filter_map_key _
               (fun n => Token_eqb (type (Node.value n)) FILTER)) by exact Hkeys.
    lia.
  - simpl. apply eqb_refl.
  - intros y Hy. apply in_map_iff in Hy. destruct Hy as (n & <- & Hn).
    simpl. apply eqb_neq. now apply Huniq.
Qed.

(** C2: when the focused slot is in the stream and the keys of the tokens
    before it name a FILTER token exactly when they contain the FILTER
    tag, the focus target of a new filter is the key of the FILTER token
    of ordinal [N] with part ["value"], where [N] counts the FILTER-kind
    tokens before the focused slot, whatever other tokens surround them;
    with two FILTER tokens before the slot the ordinal is 2. *)
Theorem calculateNextFocusForFilter_target
  (Token_str : Token -> jsstring) (state : ListState.t)
  (before after : list Node.t) (current : Node.t) :
  ListState.collection state = before ++ current :: after ->
  ListState.focusedKey state = Some (Node.key current) ->
  (forall n, In n before -> Node.key n <> Node.key current) ->
  (forall n, In n before ->
     includes (Node.key n) (Token_str FILTER)
     = Token_eqb (type (Node.value n)) FILTER) ->
  calculateNextFocusForFilter Token_str state
  = {| FocusOverride.itemKey :=
         Token_str FILTER ++ lit ":"
         ++ Number_toString (count_FILTER before);
       FocusOverride.part := Some (lit "value") |} /\
  (count_FILTER before = 2 ->
   calculateNextFocusForFilter Token_str state
   = {| FocusOverride.itemKey := Token_str FILTER ++ lit ":2";
        FocusOverride.part := Some (lit "value") |}).
Proof.
  intros Hcol Hfocus Huniq Hkeys.
  unfold calculateNextFocusForFilter.
  rewrite (countPreviousItemsOfType_FILTER Token_str state before after current)
    by assumption.
  split; [reflexivity|].
  intros ->. reflexivity.
Qed.

Lemma calculateNextFocusForFilter_target_witness :
  count_FILTER sample_before = 2 /\
  calculateNextFocusForFilter sample_Token_str sample_state
  = {| FocusOverride.itemKey := lit "filter:2";
       FocusOverride.part := Some (lit "value") |}.
Proof.
  split; [reflexivity|].
  apply (calculateNextFocusForFilter_target sample_Token_str sample_state
           sample_before sample_after sample_current).
  - reflexivity.
  - reflexivity.
  - intros n [<-|[<-|[<-|[<-|[]]]]]; vm_compute; discriminate.
  - intros n [<-|[<-|[<-|[<-|[]]]]]; reflexivity.
  - reflexivity.
Defined.

(** ** Speculative tokenizer *)

Lemma is_paren_spec span : is_paren span = spec_is_paren_kind span.
Proof. destruct span; reflexivity. Qed.

Lemma optional_some_ext {A} (p q : A -> bool) l :
  (forall x, p x = q x) -> optional_some p l = optional_some q l.
Proof.
  intros H. destruct l as [l|]; [|reflexivity].
  simpl. unfold some. induction l as [|x l IH]; simpl; [reflexivity|].
  now rewrite H, IH.
Qed.

(** C1: every change of the input runs the parser once, on the typed text
    followed by a closing quote, and then follows the classification of
    the specification: a paren span commits the typed text with the paren
    focus target; otherwise a FILTER span whose key text is the word at
    the cursor commits the text with that word replaced by its filter,
    with the filter focus target; otherwise nothing is committed and the
    typed text and its cursor go into the local state. *)
Theorem onInputChange_classification
  (getDefaultFilterValue : jsstring -> option FieldDefinition.t -> jsstring)
  (parseSearch : jsstring -> option (list ParseResultToken))
  (Token_str : Token -> jsstring)
  (r : Render.t) (e : ChangeEvent.t) :
  onInputChange getDefaultFilterValue parseSearch Token_str r e
  = call_parseSearch (ChangeEvent.value e ++ [QUOTE])
    :: match spec_classify parseSearch (filterValue r) (ChangeEvent.value e) with
       | FORMS_PAREN =>
           dispatch
             (UPDATE_FREE_TEXT [Render.token r] (ChangeEvent.value e)
                (Some (calculateNextFocusForParen Token_str (Render.item r))))
           :: resetInputValue r
       | FORMS_FILTER word =>
           dispatch
             (UPDATE_FREE_TEXT [Render.token r]
                (replaceFocusedWordWithFilter getDefaultFilterValue
                   (Render.inputValue r) (Render.selectionIndex r) word
                   (SearchQueryBuilderContext.getFieldDefinition
                      (Render.context r)))
                (Some (calculateNextFocusForFilter Token_str (Render.state r))))
           :: resetInputValue r
           ++ [trackAnalytics (lit "search.key_manually_typed")
                 {| Analytics.item_name := word;
                    Analytics.item_kind :=
                      nullish
                        (tag_kind
                           (TagCollection_get
                              (SearchQueryBuilderContext.filterKeys
                                 (Render.context r)) word))
                        FIELD;
                    Analytics.item_value_type :=
                      nullish
                        (definition_valueType
                           (SearchQueryBuilderContext.getFieldDefinition
                              (Render.context r) word))
                        STRING;
                    Analytics.filtered := None |}]
       | Class_FREE_TEXT =>
           [setInputValue (ChangeEvent.value e);
            setSelectionIndex (nullish (ChangeEvent.selectionStart e) 0)]
       end.
Proof.
  unfold onInputChange, spec_classify.
  rewrite (optional_some_ext is_paren spec_is_paren_kind) by apply is_paren_spec.
  change (is_filter_with_key (filterValue r))
    with (spec_is_filter_of (filterValue r)).
  f_equal.
  destruct (parseSearch (ChangeEvent.value e ++ [QUOTE])) as [spans|];
    [|reflexivity].
  simpl. unfold some.
  destruct (existsb spec_is_paren_kind spans); [reflexivity|].
  destruct (existsb (spec_is_filter_of (filterValue r)) spans); reflexivity.
Qed.

(** C7: when the parser fails on the hypothetical text, the change
    handler dispatches nothing and only stores the typed text and its
    cursor in the local state. *)
Theorem onInputChange_parse_failure
  (getDefaultFilterValue : jsstring -> option FieldDefinition.t -> jsstring)
  (parseSearch : jsstring -> option (list ParseResultToken))
  (Token_str : Token -> jsstring)
  (r : Render.t) (e : ChangeEvent.t) :
  parseSearch (ChangeEvent.value e ++ [QUOTE]) = None ->
  spec_classify parseSearch (filterValue r) (ChangeEvent.value e)
  = Class_FREE_TEXT /\
  onInputChange getDefaultFilterValue parseSearch Token_str r e
  = [call_parseSearch (ChangeEvent.value e ++ [QUOTE]);
     setInputValue (ChangeEvent.value e);
     setSelectionIndex (nullish (ChangeEvent.selectionStart e) 0)] /\
  dispatched (onInputChange getDefaultFilterValue parseSearch Token_str r e)
  = [] /\
  run_setters (onInputChange getDefaultFilterValue parseSearch Token_str r e)
    (Render.inputValue r, Render.selectionIndex r)
  = (ChangeEvent.value e, nullish (ChangeEvent.selectionStart e) 0).
Proof.
  intros Hfail.
  assert (onInputChange getDefaultFilterValue parseSearch Token_str r e
          = [call_parseSearch (ChangeEvent.value e ++ [QUOTE]);
             setInputValue (ChangeEvent.value e);
             setSelectionIndex (nullish (ChangeEvent.selectionStart e) 0)])
    as Hrun.
  { unfold onInputChange. rewrite Hfail. reflexivity. }
  split; [unfold spec_classify; now rewrite Hfail|].
  split; [exact Hrun|].
  rewrite Hrun. split; reflexivity.
Qed.

Lemma onInputChange_parse_failure_witness :
  dispatched
    (onInputChange (fun _ _ => []) (fun _ => None) sample_Token_str
       sample_render (ChangeEvent.mk (lit "bar:") (Some 4)))
  = [] /\
  run_setters
    (onInputChange (fun _ _ => []) (fun _ => None) sample_Token_str
       sample_render (ChangeEvent.mk (lit "bar:") (Some 4)))
    (lit "bar", 3)
  = (lit "bar:", 4).
Proof.
  apply (onInputChange_parse_failure (fun _ _ => []) (fun _ => None)
           sample_Token_str sample_render
           (ChangeEvent.mk (lit "bar:") (Some 4))).
  reflexivity.
Defined.

(** ** Edit session: blur, submission and exit *)

(** C8, as the code has it: [onExit] commits nothing when the local text
    equals the trimmed value of the committed token, and otherwise
    commits the raw local text, without a focus override, and resets the
    local state; the blur and the submission of a custom value always
    commit the text they are given, verbatim, with no comparison. *)
Theorem exit_commits_only_changed_text
  (replaceTokensWithPadding :
     jsstring -> list FreeTextToken.t -> jsstring -> jsstring)
  (r : Render.t) :
  (Render.inputValue r = trim (FreeTextToken.value (Render.token r)) ->
   onExit r = []) /\
  (Render.inputValue r <> trim (FreeTextToken.value (Render.token r)) ->
   onExit r
   = dispatch (UPDATE_FREE_TEXT [Render.token r] (Render.inputValue r) None)
     :: resetInputValue r) /\
  (forall value,
     dispatched (onCustomValueBlurred r value)
     = [UPDATE_FREE_TEXT [Render.token r] value None]) /\
  (forall value,
     dispatched (onCustomValueCommitted replaceTokensWithPadding r value)
     = [UPDATE_FREE_TEXT [Render.token r] value None]).
Proof.
  unfold onExit. repeat split.
  - intros ->. now rewrite eqb_refl.
  - intros Hne. apply eqb_neq in Hne. now rewrite Hne.
Qed.

Lemma exit_commits_only_changed_text_witness :
  onExit sample_render = [] /\
  onExit sample_edited_render
  = [dispatch
       (UPDATE_FREE_TEXT [Render.token sample_edited_render]
          (lit "bar baz") None);
     setInputValue (lit "bar");
     setSelectionIndex 7].
Proof.
  destruct (exit_commits_only_changed_text (fun query _ _ => query)
              sample_render) as (Hsame & _).
  destruct (exit_commits_only_changed_text (fun query _ _ => query)
              sample_edited_render) as (_ & Hchanged & _).
  split.
  - apply Hsame. reflexivity.
  - apply Hchanged. vm_compute. discriminate.
Defined.

(** C8 fails for the blur of a custom value: it commits even a text that
    is the committed one. *)
Lemma blur_commits_unchanged_text :
  Render.inputValue sample_render
  = trim (FreeTextToken.text (Render.token sample_render)) /\
  Render.inputValue sample_render
  = trim (FreeTextToken.value (Render.token sample_render)) /\
  dispatched
    (onCustomValueBlurred sample_render (Render.inputValue sample_render))
  <> [].
Proof. repeat split. discriminate. Qed.

(** ** Paste *)

Lemma onPaste_effects (r : Render.t) (clipboardData : jsstring) :
  dispatched (onPaste r clipboardData)
  = [REPLACE_TOKENS_WITH_TEXT [Render.token r]
       (trim (replace clipboardData [LF] []))] /\
  existsb is_call_parseSearch (onPaste r clipboardData) = false.
Proof. split; reflexivity. Qed.

Lemma onPaste_level_error :
  dispatched (onPaste sample_empty_render (lit "level:error" ++ [LF]))
  = [REPLACE_TOKENS_WITH_TEXT [Render.token sample_empty_render]
       (lit "level:error")].
Proof. reflexivity. Qed.

(** With at most one newline in the clipboard text, removing the first
    newline removes them all. *)
Lemma replace_no_newline (s : jsstring) :
  ~ In LF s -> replace s [LF] [] = s /\ strip_newlines s = s.
Proof.
  induction s as [|c s IH]; intros Hs; [split; reflexivity|].
  assert (N.eqb LF c = false) as Hc.
  { apply N.eqb_neq. intros <-. apply Hs. now left. }
  destruct IH as [IHr IHs]; [intros H; apply Hs; now right|].
  split.
  - cbn [replace startsWith]. rewrite Hc. cbn [andb]. now rewrite IHr.
  - cbn [strip_newlines List.filter]. rewrite N.eqb_sym, Hc. cbn [negb].
    f_equal. exact IHs.
Qed.

Lemma replace_single_newline (a b : jsstring) :
  ~ In LF a -> ~ In LF b ->
  replace (a ++ LF :: b) [LF] [] = strip_newlines (a ++ LF :: b).
Proof.
  intros Ha Hb.
  induction a as [|c a IH].
  - cbn [app replace startsWith strip_newlines List.filter].
    rewrite N.eqb_refl. cbn [andb negb app List.length skipn].
    symmetry. exact (proj2 (replace_no_newline b Hb)).
  - assert (N.eqb LF c = false) as Hc.
    { apply N.eqb_neq. intros <-. apply Ha. now left. }
    cbn [app replace startsWith strip_newlines List.filter].
    rewrite Hc, N.eqb_sym, Hc. cbn [andb negb].
    f_equal. apply IH. intros H; apply Ha; now right.
Qed.

(** C4, at a clipboard text with two newlines: the paste handler removes
    the first newline only, so what it commits, ["ab\nc"], is not the
    clipboard text with its newlines stripped and trimmed, ["abc"]. *)
Theorem onPaste_second_newline_survives :
  dispatched (onPaste sample_empty_render sample_clipboard)
  = [REPLACE_TOKENS_WITH_TEXT [Render.token sample_empty_render]
       (lit "ab" ++ [LF] ++ lit "c")] /\
  trim (strip_newlines sample_clipboard) = lit "abc" /\
  dispatched (onPaste sample_empty_render sample_clipboard)
  <> [REPLACE_TOKENS_WITH_TEXT [Render.token sample_empty_render]
        (trim (strip_newlines sample_clipboard))].
Proof. repeat split. discriminate. Qed.

(** ** Candidate ranker *)

Lemma map_throwing_Normal {A B} (f : A -> completion B) (R : A -> B -> Prop)
  (l : list A) :
  (forall x, In x l -> exists y, f x = Normal y /\ R x y) ->
  exists ys, map_throwing f l = Normal ys /\ Forall2 R l ys.
Proof.
  induction l as [|x l IH]; intros H; simpl.
  - exists []. split; [reflexivity | constructor].
  - destruct (H x (or_introl eq_refl)) as (y & -> & Hy).
    destruct IH as (ys & -> & Hys); [intros; apply H; now right|].
    exists (y :: ys). split; [reflexivity | now constructor].
Qed.

Lemma TagCollection_read_own keys key tag :
  TagCollection_get keys key = Some tag -> TagCollection_read keys key = own tag.
Proof. unfold TagCollection_read. now intros ->. Qed.

Lemma createSection_grouping getEscapedKey ctx section :
  (forall key, In key (FilterKeySection.children section) ->
     TagCollection_get (SearchQueryBuilderContext.filterKeys ctx) key
     <> None) ->
  exists group,
    createSection getEscapedKey section
      (SearchQueryBuilderContext.filterKeys ctx)
      (SearchQueryBuilderContext.getFieldDefinition ctx)
    = Normal group /\
    is_section_grouping getEscapedKey ctx section group.
Proof.
  intros Hin. unfold createSection.
  edestruct (map_throwing_Normal
    (fun key =>
       match TagCollection_read (SearchQueryBuilderContext.filterKeys ctx) key
       with
       | own tag =>
           Normal
             (item_of_tag
                (createItem getEscapedKey tag
                   (SearchQueryBuilderContext.getFieldDefinition ctx key)))
       | inherited name =>
           Normal
             (item_of_inherited name
                (SearchQueryBuilderContext.getFieldDefinition ctx key))
       | undefined => Throw_TypeError
       end)
    (fun key option =>
       exists tag,
         TagCollection_get (SearchQueryBuilderContext.filterKeys ctx) key
         = Some tag /\
         option
         = item_of_tag
             (createItem getEscapedKey tag
                (SearchQueryBuilderContext.getFieldDefinition ctx key)))
    (FilterKeySection.children section)) as (options & Hmap & Hopts).
  - intros key Hkey. specialize (Hin key Hkey).
    destruct (TagCollection_get (SearchQueryBuilderContext.filterKeys ctx) key)
      as [tag|] eqn:Hget; [|congruence].
    rewrite (TagCollection_read_own _ _ _ Hget). eauto.
  - rewrite Hmap. simpl. eexists. split; [reflexivity|].
    unfold is_section_grouping. simpl. auto.
Qed.

(** C9, at a configured section that names a key the catalog does not
    have: for the empty filter word the ranker does not return the
    section groupings, it throws a TypeError ([createItem] reads
    [tag.key] of [undefined]). *)
Theorem useSortItems_dangling_child_throws :
  SearchQueryBuilderContext.filterKeySections sample_dangling_context <> [] /\
  useSortItems (fun key => key) (fun _ => None) sample_dangling_context []
  = Throw_TypeError /\
  forall groups : list KeySectionItem.t,
    useSortItems (fun key => key) (fun _ => None) sample_dangling_context []
    <> Normal (List.map Section_ groups).
Proof. repeat split; discriminate. Qed.

(** X27: for an empty filter word the ranker returns the catalog's keys
    as a flat sequence, in catalog order, when no section is configured,
    and, when sections are configured and each of their child keys is a
    key of the catalog, one grouping per configured section, in order;
    the result does not depend on the fuzzy-search engine, so it is the
    same at every call with the same catalog. *)
Theorem useSortItems_empty_filter
  (getEscapedKey : jsstring -> jsstring)
  (useFuzzySearch : list KeyItem.t -> option (jsstring -> list KeyItem.t))
  (ctx : SearchQueryBuilderContext.t) :
  (SearchQueryBuilderContext.filterKeySections ctx <> [] ->
   (forall section key,
      In section (SearchQueryBuilderContext.filterKeySections ctx) ->
      In key (FilterKeySection.children section) ->
      TagCollection_get (SearchQueryBuilderContext.filterKeys ctx) key
      <> None) ->
   exists groups,
     useSortItems getEscapedKey useFuzzySearch ctx []
     = Normal (List.map Section_ groups) /\
     Forall2 (is_section_grouping getEscapedKey ctx)
       (SearchQueryBuilderContext.filterKeySections ctx) groups) /\
  (SearchQueryBuilderContext.filterKeySections ctx = [] ->
   exists items,
     useSortItems getEscapedKey useFuzzySearch ctx []
     = Normal (List.map Key items) /\
     items
     = List.map
         (fun entry =>
            createItem getEscapedKey (snd entry)
              (SearchQueryBuilderContext.getFieldDefinition ctx
                 (Tag.key (snd entry))))
         (SearchQueryBuilderContext.filterKeys ctx) /\
     List.map KeyItem.value items
     = List.map (fun entry => Tag.key (snd entry))
         (SearchQueryBuilderContext.filterKeys ctx)) /\
  (forall useFuzzySearch',
     useSortItems getEscapedKey useFuzzySearch' ctx []
     = useSortItems getEscapedKey useFuzzySearch ctx []).
Proof.
  unfold useSortItems. simpl is_empty. cbv iota.
  split; [|split].
  - intros Hne Hin.
    destruct (SearchQueryBuilderContext.filterKeySections ctx)
      as [|section sections] eqn:Hsec; [congruence|].
    rewrite length_cons.
    pose proof (length_nonneg sections) as Hlen.
    destruct (length sections + 1 =? 0) eqn:E; [apply Z.eqb_eq in E; lia|].
    destruct (map_throwing_Normal
      (fun s =>
         createSection getEscapedKey s
           (SearchQueryBuilderContext.filterKeys ctx)
           (SearchQueryBuilderContext.getFieldDefinition ctx))
      (is_section_grouping getEscapedKey ctx)
      (section :: sections)) as (groups & Hmap & Hgroups).
    + intros s Hs. apply createSection_grouping.
      intros key Hkey. now apply (Hin s key).
    + exists groups. rewrite Hmap. split; [reflexivity | assumption].
  - intros ->. eexists. split; [reflexivity|]. split.
    + unfold Object_values. now rewrite map_map.
    + unfold Object_values. rewrite !map_map. reflexivity.
  - reflexivity.
Qed.

Lemma useSortItems_empty_filter_witness :
  (exists groups,
     useSortItems (fun key => key) (fun _ => None) sample_sectioned_context []
     = Normal (List.map Section_ groups) /\
     Forall2 (is_section_grouping (fun key => key) sample_sectioned_context)
       (SearchQueryBuilderContext.filterKeySections sample_sectioned_context)
       groups) /\
  (exists items,
     useSortItems (fun key => key) (fun _ => None) sample_context []
     = Normal (List.map Key items) /\
     List.map KeyItem.value items = [lit "level"; lit "browser.name"]).
Proof.
  split.
  - apply (useSortItems_empty_filter (fun key => key) (fun _ => None)
             sample_sectioned_context).
    + discriminate.
    + intros section key [<-|[]] [<-|[<-|[]]]; discriminate.
  - destruct (useSortItems_empty_filter (fun key => key) (fun _ => None)
                sample_context) as (_ & Hflat & _).
    destruct (Hflat eq_refl) as (items & Hrun & _ & Hvalues).
    exists items. split; [exact Hrun | exact Hvalues].
Defined.

(** * Further properties of the source *)

(** ** Trimming *)

Lemma trimStart_clean s : starts_clean (trimStart s).
Proof.
  induction s as [|c s IH]; simpl; [exact I|].
  destruct (is_white_space c) eqn:E; [exact IH | exact E].
Qed.

Lemma trimStart_fixed s : starts_clean s -> trimStart s = s.
Proof. destruct s as [|c s]; simpl; [reflexivity|]. now intros ->. Qed.

Lemma trimStart_split s :
  exists p, s = p ++ trimStart s /\ forallb is_white_space p = true.
Proof.
  induction s as [|c s (p & Hs & Hp)]; simpl.
  - exists []. split; reflexivity.
  - destruct (is_white_space c) eqn:E.
    + exists (c :: p). simpl. rewrite E, Hp. split; [now f_equal | reflexivity].
    + exists []. split; reflexivity.
Qed.

Lemma trimStart_app s t :
  trimStart (s ++ t)
  = if forallb is_white_space s then trimStart t else trimStart s ++ t.
Proof.
  induction s as [|c s IH]; simpl; [reflexivity|].
  destruct (is_white_space c); simpl; [exact IH | reflexivity].
Qed.

Lemma trimStart_white s : forallb is_white_space s = true -> trimStart s = [].
Proof.
  induction s as [|c s IH]; simpl; [reflexivity|].
  destruct (is_white_space c); simpl; [exact IH | discriminate].
Qed.

Lemma starts_clean_app_l a b : starts_clean (a ++ b) -> starts_clean a.
Proof. destruct a; simpl; auto. Qed.

Lemma starts_clean_app a b : a <> [] -> starts_clean a -> starts_clean (a ++ b).
Proof. destruct a; simpl; [congruence | auto]. Qed.

Lemma ends_clean_app a b : b <> [] -> ends_clean b -> ends_clean (a ++ b).
Proof.
  intros Hb H. unfold ends_clean in *. rewrite rev_app_distr.
  apply starts_clean_app; [|assumption].
  intros Hr. apply Hb. rewrite <- (rev_involutive b), Hr. reflexivity.
Qed.

(** A text that is clean at both ends is left as it is. *)
Lemma trim_fixed s : starts_clean s -> ends_clean s -> trim s = s.
Proof.
  intros Hs He. unfold trim, trimEnd.
  rewrite (trimStart_fixed s Hs), (trimStart_fixed (rev s) He).
  apply rev_involutive.
Qed.

(** What [trim] returns is clean at both ends. *)
Lemma trim_clean s : starts_clean (trim s) /\ ends_clean (trim s).
Proof.
  unfold trim, trimEnd, ends_clean. rewrite rev_involutive.
  split; [|apply trimStart_clean].
  destruct (trimStart_split (rev (trimStart s))) as (p & Hp & _).
  apply (starts_clean_app_l _ (rev p)).
  rewrite <- rev_app_distr, <- Hp, rev_involutive.
  apply trimStart_clean.
Qed.

Lemma trim_idempotent s : trim (trim s) = trim s.
Proof. apply trim_fixed; apply trim_clean. Qed.

Lemma trim_app_white_space s c :
  is_white_space c = true -> trim (s ++ [c]) = trim s.
Proof.
  intros Hc. unfold trim. rewrite trimStart_app.
  destruct (forallb is_white_space s) eqn:E.
  - simpl. rewrite Hc. now rewrite (trimStart_white s E).
  - unfold trimEnd. rewrite rev_app_distr. simpl. now rewrite Hc.
Qed.

(** ** Word locator and focused-word replacer, by located word *)

(** The locator returns the located word, and the replacer splices the
    filter text around it. *)
Lemma located_result
  (getDefaultFilterValue : jsstring -> option FieldDefinition.t -> jsstring)
  (getFieldDefinition : jsstring -> option FieldDefinition.t)
  (text key : jsstring) (cursorOffset : Z) pre word post :
  located text cursorOffset pre word post ->
  getWordAtCursorPosition text cursorOffset = word /\
  replaceFocusedWordWithFilter getDefaultFilterValue text cursorOffset key
    getFieldDefinition
  = trim (trim pre
          ++ (lit " "
              ++ getInitialFilterText getDefaultFilterValue key
                   (getFieldDefinition key)
              ++ lit " ")
          ++ trim post).
Proof.
  intros Hloc.
  assert (cursorOffset <= length text + 1) as Hc.
  { destruct Hloc as (Heq & _ & _ & _ & Hc). rewrite Heq, !length_app.
    pose proof (length_nonneg post). lia. }
  destruct (wordScan (split SPACE text) 0 cursorOffset) as [[cc' w]|] eqn:E;
    [|apply wordScan_text_None in E; lia].
  destruct (wordScan_text _ _ _ _ E) as (pre' & post' & Hloc' & Hcc).
  destruct (located_unique _ _ _ _ _ _ _ _ Hloc Hloc') as (<- & <- & <-).
  unfold replaceFocusedWordWithFilter, getWordAtCursorPosition.
  rewrite replaceFocusedWordWithFilter_loop_scan,
    getWordAtCursorPosition_loop_scan, E.
  split; [reflexivity|].
  destruct Hloc as (Heq & _ & _ & Hpost & _).
  simpl option_map. cbv beta. simpl fst. simpl snd. subst cc'.
  replace (length pre + length word + 1 - length word - 1)
    with (length pre) by lia.
  rewrite Heq at 1 2.
  now rewrite slice_prefix, trim_slice_after_word by assumption.
Qed.

(** X1: a cursor offset selects a word [w] of the text exactly from the
    offset after the word's first unit up to the offset after the space
    that follows it: for [text = pre ++ w ++ post] with [w] delimited by
    spaces or the ends of the text, every such offset returns [w]; so a
    cursor placed right after a space still selects the word before the
    space. *)
Theorem getWordAtCursorPosition_cursor_range
  (pre w post : jsstring) (cursorOffset : Z) :
  ~ In SPACE w ->
  (pre = [] \/ (exists p, pre = p ++ [SPACE]) /\ length pre < cursorOffset) ->
  (post = [] \/ exists q, post = SPACE :: q) ->
  cursorOffset <= length pre + length w + 1 ->
  getWordAtCursorPosition (pre ++ w ++ post) cursorOffset = w.
Proof.
  intros Hw Hpre Hpost Hc.
  apply (located_result (fun _ _ => []) (fun _ => None) _ [] _ pre w post).
  unfold located. auto.
Qed.

Lemma getWordAtCursorPosition_cursor_range_witness :
  getWordAtCursorPosition (lit "is:unresolved " ++ lit "brow" ++ lit " x") 19
  = lit "brow" /\
  getWordAtCursorPosition (lit "is:unresolved " ++ lit "brow" ++ lit " x") 15
  = lit "brow" /\
  getWordAtCursorPosition ([] ++ lit "is:unresolved" ++ lit " brow x") 14
  = lit "is:unresolved".
Proof.
  split; [|split].
  - apply getWordAtCursorPosition_cursor_range.
    + vm_compute; intuition discriminate.
    + right. split; [exists (lit "is:unresolved"); reflexivity | reflexivity].
    + right. exists (lit "x"). reflexivity.
    + vm_compute. discriminate.
  - apply getWordAtCursorPosition_cursor_range.
    + vm_compute; intuition discriminate.
    + right. split; [exists (lit "is:unresolved"); reflexivity | reflexivity].
    + right. exists (lit "x"). reflexivity.
    + vm_compute. discriminate.
  - apply getWordAtCursorPosition_cursor_range.
    + vm_compute; intuition discriminate.
    + now left.
    + right. exists (lit "brow x"). reflexivity.
    + vm_compute. discriminate.
Defined.

(** X2: whenever the scan matches a word (cursor offset at most
    [text.length + 1]) the replaced text has no white space at its start
    or its end: trimming it again changes nothing. *)
Theorem replaceFocusedWordWithFilter_trimmed
  (getDefaultFilterValue : jsstring -> option FieldDefinition.t -> jsstring)
  (getFieldDefinition : jsstring -> option FieldDefinition.t)
  (text key : jsstring) (cursorOffset : Z) :
  cursorOffset <= length text + 1 ->
  trim (replaceFocusedWordWithFilter getDefaultFilterValue text cursorOffset
          key getFieldDefinition)
  = replaceFocusedWordWithFilter getDefaultFilterValue text cursorOffset key
      getFieldDefinition.
Proof.
  intros Hc.
  destruct (wordScan (split SPACE text) 0 cursorOffset) as [[cc' w]|] eqn:E;
    [|apply wordScan_text_None in E; lia].
  destruct (wordScan_text _ _ _ _ E) as (pre & post & Hloc & _).
  destruct (located_result getDefaultFilterValue getFieldDefinition text key
              cursorOffset pre w post Hloc) as [_ ->].
  apply trim_idempotent.
Qed.

Lemma replaceFocusedWordWithFilter_trimmed_witness :
  trim (replaceFocusedWordWithFilter (fun _ _ => []) (lit " brow ") 3
          (lit "browser.name") (fun _ => None))
  = replaceFocusedWordWithFilter (fun _ _ => []) (lit " brow ") 3
      (lit "browser.name") (fun _ => None).
Proof.
  apply replaceFocusedWordWithFilter_trimmed. vm_compute. discriminate.
Defined.

(** X3: when the slot holds a single word (no space in the text), the
    replaced text is the trimmed filter text alone, whatever the word and
    wherever the cursor is in it. *)
Theorem replaceFocusedWordWithFilter_single_word
  (getDefaultFilterValue : jsstring -> option FieldDefinition.t -> jsstring)
  (getFieldDefinition : jsstring -> option FieldDefinition.t)
  (text key : jsstring) (cursorOffset : Z) :
  ~ In SPACE text ->
  cursorOffset <= length text + 1 ->
  replaceFocusedWordWithFilter getDefaultFilterValue text cursorOffset key
    getFieldDefinition
  = trim (getInitialFilterText getDefaultFilterValue key
            (getFieldDefinition key)).
Proof.
  intros Hns Hc.
  destruct (located_result getDefaultFilterValue getFieldDefinition text key
              cursorOffset [] text []) as [_ ->].
  - unfold located. rewrite app_nil_r. repeat split; auto.
  - change (trim []) with (@nil code_unit). rewrite app_nil_r. simpl app.
    rewrite trim_cons_white_space by reflexivity.
    apply trim_app_white_space. reflexivity.
Qed.

Lemma replaceFocusedWordWithFilter_single_word_witness :
  replaceFocusedWordWithFilter (fun _ _ => lit "100") (lit "dur") 2
    (lit "duration")
    (fun _ => Some (FieldDefinition.mk FIELD (Some DURATION) None None))
  = lit "duration:>100".
Proof.
  rewrite replaceFocusedWordWithFilter_single_word.
  - reflexivity.
  - vm_compute; intuition discriminate.
  - vm_compute. discriminate.
Defined.

(** X4: when there is text on both sides of the located word, the
    replaced text is exactly the trimmed text before it, one space, the
    filter text, one space and the trimmed text after it: the outer trim
    removes nothing, and only the white space next to the word is
    normalised. *)
Theorem replaceFocusedWordWithFilter_between
  (getDefaultFilterValue : jsstring -> option FieldDefinition.t -> jsstring)
  (getFieldDefinition : jsstring -> option FieldDefinition.t)
  (text key : jsstring) (cursorOffset : Z) pre word post :
  located text cursorOffset pre word post ->
  trim pre <> [] ->
  trim post <> [] ->
  replaceFocusedWordWithFilter getDefaultFilterValue text cursorOffset key
    getFieldDefinition
  = trim pre ++ lit " "
    ++ getInitialFilterText getDefaultFilterValue key (getFieldDefinition key)
    ++ lit " " ++ trim post.
Proof.
  intros Hloc Hpre Hpost.
  destruct (located_result getDefaultFilterValue getFieldDefinition text key
              cursorOffset pre word post Hloc) as [_ ->].
  rewrite <- !app_assoc.
  apply trim_fixed.
  - apply starts_clean_app; [assumption | apply trim_clean].
  - rewrite !app_assoc. apply ends_clean_app; [assumption | apply trim_clean].
Qed.

Lemma replaceFocusedWordWithFilter_between_witness :
  replaceFocusedWordWithFilter (fun _ _ => []) (lit "before  brow  after") 10
    (lit "browser.name") (fun _ => None)
  = lit "before browser.name: after".
Proof.
  apply (replaceFocusedWordWithFilter_between (fun _ _ => []) (fun _ => None)
           (lit "before  brow  after") (lit "browser.name") 10
           (lit "before  ") (lit "brow") (lit "  after")).
  - unfold located. repeat split.
    + vm_compute; intuition discriminate.
    + right. split; [exists (lit "before "); reflexivity | reflexivity].
    + right. exists (lit " after"). reflexivity.
    + vm_compute. discriminate.
  - vm_compute. discriminate.
  - vm_compute. discriminate.
Defined.

(** ** Keys of the form [type:index] *)

Lemma lit_String c s : lit (String c s) = N_of_ascii c :: lit s.
Proof. reflexivity. Qed.

Lemma digits_value_step c acc s :
  is_digit c = true ->
  digits_value acc (c :: s) = digits_value (10 * acc + (Z.of_N c - 48)) s.
Proof. intros H. simpl. now rewrite H. Qed.

Ltac digit_step :=
  rewrite lit_String, digits_value_step by reflexivity;
  match goal with
  | |- context [Z.of_N (N_of_ascii ?a) - 48] =>
      let v := eval vm_compute in (Z.of_N (N_of_ascii a) - 48) in
      change (Z.of_N (N_of_ascii a) - 48) with v
  end.

Lemma digits_value_acc d : forall acc,
  digits_value (Z.pos acc) (lit (NilEmpty.string_of_uint d))
  = Z.pos (Pos.of_uint_acc d acc).
Proof.
  induction d; intros acc; simpl NilEmpty.string_of_uint;
    [reflexivity | ..];
    digit_step; cbn [Pos.of_uint_acc]; rewrite <- IHd; f_equal; lia.
Qed.

(** The digits of a decimal numeral evaluate to the number it denotes. *)
Lemma digits_value_uint d :
  digits_value 0 (lit (NilEmpty.string_of_uint d)) = Z.of_N (Pos.of_uint d).
Proof.
  induction d; simpl NilEmpty.string_of_uint; [reflexivity | ..];
    digit_step; cbn [Pos.of_uint]; [exact IHd | ..];
    apply (digits_value_acc d).
Qed.

Lemma parseInt_uint d :
  d <> Decimal.Nil ->
  parseInt (Some (lit (NilEmpty.string_of_uint d)))
  = Some (digits_value 0 (lit (NilEmpty.string_of_uint d))).
Proof.
  destruct d; [congruence | ..]; intros _;
    simpl NilEmpty.string_of_uint; rewrite lit_String; reflexivity.
Qed.

(** [parseInt] reads back the decimal text of a natural number. *)
Lemma parseInt_Number_toString n :
  0 <= n -> parseInt (Some (Number_toString n)) = Some n.
Proof.
  intros Hn. destruct n as [|p|p]; [reflexivity | | lia].
  unfold Number_toString. simpl Z.to_int.
  unfold NilZero.string_of_int, NilZero.string_of_uint.
  pose proof (DecimalPos.Unsigned.to_uint_nonnil p) as Hnil.
  destruct (Pos.to_uint p) eqn:E; [congruence | ..];
    rewrite <- E in *;
    rewrite parseInt_uint, digits_value_uint, DecimalPos.Unsigned.of_to
      by assumption;
    reflexivity.
Qed.

Lemma Number_toString_digits n :
  0 <= n -> Forall (fun c => is_digit c = true) (Number_toString n).
Proof.
  intros Hn. unfold Number_toString.
  assert (forall d, Forall (fun c => is_digit c = true)
                      (lit (NilEmpty.string_of_uint d))) as Hd.
  { induction d; simpl NilEmpty.string_of_uint;
      try rewrite lit_String; constructor; auto. }
  destruct n as [|p|p]; [repeat constructor | | lia].
  simpl Z.to_int. unfold NilZero.string_of_int, NilZero.string_of_uint.
  destruct (Pos.to_uint p) eqn:E; try (rewrite <- E; apply Hd).
  repeat constructor.
Qed.

Lemma digits_no_colon s :
  Forall (fun c => is_digit c = true) s -> ~ In COLON s.
Proof.
  intros H Hin. rewrite Forall_forall in H.
  specialize (H COLON Hin). discriminate.
Qed.

Lemma split_single sep s : ~ In sep s -> split sep s = [s].
Proof.
  induction s as [|c s IH]; intros Hs; [reflexivity|].
  simpl. destruct (N.eqb c sep) eqn:E.
  - apply N.eqb_eq in E. subst. exfalso. apply Hs. now left.
  - rewrite IH; [reflexivity|]. intros H. apply Hs. now right.
Qed.

Lemma split_app_sep sep a b :
  ~ In sep a -> split sep (a ++ sep :: b) = a :: split sep b.
Proof.
  induction a as [|c a IH]; intros Ha; simpl.
  - now rewrite N.eqb_refl.
  - destruct (N.eqb c sep) eqn:E.
    + apply N.eqb_eq in E. subst. exfalso. apply Ha. now left.
    + rewrite IH; [reflexivity|]. intros H. apply Ha. now right.
Qed.

(** A key [type:index] splits into its two fields. *)
Lemma split_key prefix n :
  0 <= n -> ~ In COLON prefix ->
  split COLON (prefix ++ lit ":" ++ Number_toString n)
  = [prefix; Number_toString n].
Proof.
  intros Hn Hp. change (lit ":" ++ Number_toString n)
    with (COLON :: Number_toString n).
  rewrite split_app_sep by assumption.
  rewrite split_single; [reflexivity|].
  apply digits_no_colon, Number_toString_digits, Hn.
Qed.

(** ** Focus router: the paren rule *)

(** Below 2^53 the index read from a key, plus one, is exact. *)
Lemma index_succ_exact n :
  0 <= n < JSNumber.MAX_EXACT ->
  JSNumber.toString
    (JSNumber.succ (JSNumber.parseInt (Some (Number_toString n))))
  = Number_toString (n + 1).
Proof.
  unfold JSNumber.MAX_EXACT. intros Hn.
  assert ((Z.abs n <=? 9007199254740992) = true) as E1
    by (apply Z.leb_le; lia).
  assert ((Z.abs (n + 1) <=? 9007199254740992) = true) as E2
    by (apply Z.leb_le; lia).
  unfold JSNumber.parseInt. rewrite parseInt_Number_toString by lia.
  unfold JSNumber.of_Z, JSNumber.MAX_EXACT. rewrite E1.
  unfold JSNumber.succ, JSNumber.of_Z, JSNumber.MAX_EXACT. rewrite E2.
  unfold JSNumber.toString, JSNumber.MAX_EXACT. now rewrite E2.
Qed.

(** X5: for an item whose key is [type:n], with [n] a natural number
    below 2^53 (so that [n + 1] is exact in a Number) and no colon in
    [type], the paren rule targets the free-text slot of index [n + 1],
    whole-token (no part); the type of the item is not looked at. *)
Theorem calculateNextFocusForParen_next_index
  (Token_str : Token -> jsstring) (item : Node.t)
  (prefix : jsstring) (n : Z) :
  0 <= n < JSNumber.MAX_EXACT ->
  ~ In COLON prefix ->
  Node.key item = prefix ++ lit ":" ++ Number_toString n ->
  calculateNextFocusForParen Token_str item
  = {| FocusOverride.itemKey :=
         Token_str FREE_TEXT ++ lit ":" ++ Number_toString (n + 1);
       FocusOverride.part := None |}.
Proof.
  intros Hn Hp Hkey. unfold calculateNextFocusForParen.
  rewrite Hkey, split_key by (assumption || lia).
  simpl nth_error. now rewrite index_succ_exact.
Qed.

Lemma calculateNextFocusForParen_next_index_witness :
  calculateNextFocusForParen sample_Token_str
    (sample_free_node "freeText:41" "typed (")
  = {| FocusOverride.itemKey := lit "freeText:42";
       FocusOverride.part := None |}.
Proof.
  apply (calculateNextFocusForParen_next_index sample_Token_str
           (sample_free_node "freeText:41" "typed (") (lit "freeText") 41).
  - unfold JSNumber.MAX_EXACT. lia.
  - vm_compute; intuition discriminate.
  - reflexivity.
Defined.

(** X6: for an item whose key has no colon there is no index to read:
    the target key is the free-text tag followed by [:NaN]. *)
Theorem calculateNextFocusForParen_no_index
  (Token_str : Token -> jsstring) (item : Node.t) :
  ~ In COLON (Node.key item) ->
  calculateNextFocusForParen Token_str item
  = {| FocusOverride.itemKey := Token_str FREE_TEXT ++ lit ":NaN";
       FocusOverride.part := None |}.
Proof.
  intros Hkey. unfold calculateNextFocusForParen.
  now rewrite split_single.
Qed.

Lemma calculateNextFocusForParen_no_index_witness :
  calculateNextFocusForParen sample_Token_str
    (sample_free_node "freeText" "typed (")
  = {| FocusOverride.itemKey := lit "freeText:NaN";
       FocusOverride.part := None |}.
Proof.
  apply (calculateNextFocusForParen_no_index sample_Token_str
           (sample_free_node "freeText" "typed (")).
  vm_compute; intuition discriminate.
Defined.

(** ** Focus router: counting the previous items *)

Lemma indexOf_not_found {A} (is_x : A -> bool) (l : list A) :
  (forall y, In y l -> is_x y = false) -> indexOf is_x l = -1.
Proof.
  induction l as [|y l IH]; intros H; simpl; [reflexivity|].
  rewrite (H y) by (now left).
  rewrite IH by (intros; apply H; now right). reflexivity.
Qed.

Lemma indexOf_range {A} (is_x : A -> bool) (l : list A) :
  -1 <= indexOf is_x l < length l.
Proof.
  induction l as [|y l IH]; simpl.
  - change (length (@nil A)) with 0. lia.
  - rewrite length_cons. pose proof (length_nonneg l).
    destruct (is_x y); [lia|].
    destruct (indexOf is_x l <? 0) eqn:E; [lia|].
    apply Z.ltb_ge in E. lia.
Qed.

Lemma slice_length_le {A} (l : list A) start stop :
  length (slice l start stop) <= length l.
Proof.
  unfold slice, length.
  rewrite length_firstn, length_skipn. lia.
Qed.

(** [slice(0, -1)] drops the last element. *)
Lemma slice_all_but_last {A} (l : list A) :
  slice l 0 (Some (-1)) = removelast l.
Proof.
  unfold slice, rel_index. pose proof (length_nonneg l).
  change (0 <? 0) with false. change (-1 <? 0) with true. cbv iota.
  rewrite Z.min_l by lia. simpl skipn.
  rewrite removelast_firstn_len. f_equal.
  unfold length in *. lia.
Qed.

Lemma filter_length_le {A} (p : A -> bool) (l : list A) :
  length (List.filter p l) <= length l.
Proof. unfold length. pose proof (filter_length_le p l). lia. Qed.

Lemma countPreviousItemsOfType_filter
  (Token_str : Token -> jsstring) (state : ListState.t) (type : Token) :
  countPreviousItemsOfType Token_str state type
  = length
      (List.filter (fun key => includes key (Token_str type))
         (slice (ListState.getKeys state) 0
            (Some (indexOf (is_focusedKey (ListState.focusedKey state))
                     (ListState.getKeys state))))).
Proof.
  unfold countPreviousItemsOfType. rewrite fold_left_count. lia.
Qed.

(** X7: when no key of the collection is the focused key (in
    particular when the focused key is [null]), the count runs over every
    item but the last one: [indexOf] gives [-1], and [slice(0, -1)] stops
    before the last key. *)
Theorem countPreviousItemsOfType_without_focus
  (Token_str : Token -> jsstring) (state : ListState.t) (type : Token) :
  (forall key, ListState.focusedKey state = Some key ->
               ~ In key (ListState.getKeys state)) ->
  countPreviousItemsOfType Token_str state type
  = length
      (List.filter (fun key => includes key (Token_str type))
         (removelast (ListState.getKeys state))).
Proof.
  intros Hfocus. rewrite countPreviousItemsOfType_filter.
  rewrite indexOf_not_found, slice_all_but_last; [reflexivity|].
  intros y Hy. unfold is_focusedKey.
  destruct (ListState.focusedKey state) as [key|]; [|reflexivity].
  apply eqb_neq. intros ->. now apply (Hfocus key).
Qed.

Lemma countPreviousItemsOfType_without_focus_witness :
  countPreviousItemsOfType sample_Token_str
    (ListState.mk (ListState.collection sample_state) None) FILTER
  = 3 /\
  countPreviousItemsOfType sample_Token_str
    (ListState.mk (ListState.collection sample_state) (Some (lit "filter:9")))
    FREE_TEXT
  = 3.
Proof.
  split.
  - rewrite countPreviousItemsOfType_without_focus; [reflexivity|].
    discriminate.
  - rewrite countPreviousItemsOfType_without_focus; [reflexivity|].
    intros key [= <-]. vm_compute; intuition discriminate.
Defined.

(** X8: the count is never negative and, in a stream that is not
    empty, always less than the number of its items, for every state,
    focused or not. *)
Theorem countPreviousItemsOfType_bounds
  (Token_str : Token -> jsstring) (state : ListState.t) (type : Token) :
  0 <= countPreviousItemsOfType Token_str state type /\
  countPreviousItemsOfType Token_str state type
  <= Z.max 0 (length (ListState.collection state) - 1).
Proof.
  rewrite countPreviousItemsOfType_filter.
  split; [apply length_nonneg|].
  etransitivity; [apply filter_length_le|].
  unfold ListState.getKeys.
  set (keys := List.map Node.key (ListState.collection state)).
  assert (length keys = length (ListState.collection state)) as Hlen
    by (unfold keys, length; now rewrite length_map).
  rewrite <- Hlen.
  pose proof (indexOf_range (is_focusedKey (ListState.focusedKey state)) keys)
    as Hidx.
  pose proof (length_nonneg keys) as Hnn.
  unfold slice, rel_index, length in *.
  rewrite length_firstn, length_skipn.
  change (0 <? 0) with false. cbv iota.
  destruct (indexOf (is_focusedKey (ListState.focusedKey state)) keys <? 0)
    eqn:E; [apply Z.ltb_lt in E | apply Z.ltb_ge in E]; lia.
Qed.

(** X9: the key targeted by the filter rule has the form [type:index]
    of the keys of the stream: when the FILTER tag has no colon, the key
    splits at the colon into the tag and a decimal index, and [parseInt]
    reads the count of previous items back from it. *)
Theorem calculateNextFocusForFilter_key_round_trip
  (Token_str : Token -> jsstring) (state : ListState.t) :
  ~ In COLON (Token_str FILTER) ->
  split COLON
    (FocusOverride.itemKey (calculateNextFocusForFilter Token_str state))
  = [Token_str FILTER;
     Number_toString (countPreviousItemsOfType Token_str state FILTER)] /\
  parseInt
    (nth_error
       (split COLON
          (FocusOverride.itemKey (calculateNextFocusForFilter Token_str state)))
       1)
  = Some (countPreviousItemsOfType Token_str state FILTER).
Proof.
  intros Hp.
  assert (0 <= countPreviousItemsOfType Token_str state FILTER) as Hn
    by (rewrite countPreviousItemsOfType_filter; apply length_nonneg).
  unfold calculateNextFocusForFilter. cbn [FocusOverride.itemKey].
  rewrite split_key by assumption.
  split; [reflexivity|].
  simpl nth_error. now apply parseInt_Number_toString.
Qed.

Lemma calculateNextFocusForFilter_key_round_trip_witness :
  parseInt
    (nth_error
       (split COLON
          (FocusOverride.itemKey
             (calculateNextFocusForFilter sample_Token_str sample_state)))
       1)
  = Some 2.
Proof.
  apply (calculateNextFocusForFilter_key_round_trip sample_Token_str
           sample_state).
  vm_compute; intuition discriminate.
Defined.

(** ** The handlers together *)

Lemma dispatched_app a b : dispatched (a ++ b) = dispatched a ++ dispatched b.
Proof. unfold dispatched. apply flat_map_app. Qed.

Lemma run_setters_app a b st :
  run_setters (a ++ b) st = run_setters b (run_setters a st).
Proof.
  revert st; induction a as [|e a IH]; intros st; [reflexivity|].
  destruct e; simpl; apply IH.
Qed.

Lemma run_setters_reset r st :
  run_setters (resetInputValue r) st = reset_state r.
Proof. reflexivity. Qed.

(** The effects of a change event, branch by branch. *)
Lemma onInputChange_cases
  (getDefaultFilterValue : jsstring -> option FieldDefinition.t -> jsstring)
  (parseSearch : jsstring -> option (list ParseResultToken))
  (Token_str : Token -> jsstring) (r : Render.t) (e : ChangeEvent.t) :
  let run := onInputChange getDefaultFilterValue parseSearch Token_str r e in
  (spec_classify parseSearch (filterValue r) (ChangeEvent.value e)
   = FORMS_PAREN /\
   dispatched run
   = [UPDATE_FREE_TEXT [Render.token r] (ChangeEvent.value e)
        (Some (calculateNextFocusForParen Token_str (Render.item r)))] /\
   searches run = [] /\
   forall st, run_setters run st = reset_state r) \/
  (spec_classify parseSearch (filterValue r) (ChangeEvent.value e)
   = FORMS_FILTER (filterValue r) /\
   dispatched run
   = [UPDATE_FREE_TEXT [Render.token r]
        (replaceFocusedWordWithFilter getDefaultFilterValue
           (Render.inputValue r) (Render.selectionIndex r) (filterValue r)
           (SearchQueryBuilderContext.getFieldDefinition (Render.context r)))
        (Some (calculateNextFocusForFilter Token_str (Render.state r)))] /\
   searches run = [] /\
   forall st, run_setters run st = reset_state r) \/
  (spec_classify parseSearch (filterValue r) (ChangeEvent.value e)
   = Class_FREE_TEXT /\
   dispatched run = [] /\
   searches run = [] /\
   forall st,
     run_setters run st
     = (ChangeEvent.value e, nullish (ChangeEvent.selectionStart e) 0)).
Proof.
  unfold onInputChange, spec_classify.
  rewrite (optional_some_ext is_paren spec_is_paren_kind) by apply is_paren_spec.
  change (is_filter_with_key (filterValue r))
    with (spec_is_filter_of (filterValue r)).
  destruct (parseSearch (ChangeEvent.value e ++ [QUOTE])) as [spans|];
    [|right; right; repeat split].
  simpl optional_some. unfold some.
  destruct (existsb spec_is_paren_kind spans);
    [left; repeat split|].
  destruct (existsb (spec_is_filter_of (filterValue r)) spans);
    [right; left; repeat split | right; right; repeat split].
Qed.

(** X10: every handler of the slot dispatches at most one action per
    event, and an action it dispatches names the slot's own token and no
    other. *)
Theorem handlers_edit_own_token
  (getDefaultFilterValue : jsstring -> option FieldDefinition.t -> jsstring)
  (parseSearch : jsstring -> option (list ParseResultToken))
  (replaceTokensWithPadding :
     jsstring -> list FreeTextToken.t -> jsstring -> jsstring)
  (Token_str : Token -> jsstring)
  (r : Render.t) (text : jsstring) (e : ChangeEvent.t) (run : list Effect) :
  In run
    [onPaste r text;
     onOptionSelected getDefaultFilterValue Token_str r text;
     onCustomValueBlurred r text;
     onCustomValueCommitted replaceTokensWithPadding r text;
     onExit r;
     onInputChange getDefaultFilterValue parseSearch Token_str r e] ->
  (List.length (dispatched run) <= 1)%nat /\
  forall action,
    In action (dispatched run) -> action_tokens action = [Render.token r].
Proof.
  intros [<-|[<-|[<-|[<-|[<-|[<-|[]]]]]]].
  - split; [simpl; lia|]. intros a [<-|[]]. reflexivity.
  - split; [simpl; lia|]. intros a [<-|[]]. reflexivity.
  - split; [simpl; lia|]. intros a [<-|[]]. reflexivity.
  - split; [simpl; lia|]. intros a [<-|[]]. reflexivity.
  - unfold onExit.
    destruct (negb (JS.eqb (Render.inputValue r)
                      (trim (FreeTextToken.value (Render.token r))))).
    + split; [simpl; lia|]. intros a [<-|[]]. reflexivity.
    + split; [simpl; lia|]. intros a [].
  - destruct (onInputChange_cases getDefaultFilterValue parseSearch Token_str
                r e) as [(_ & -> & _)|[(_ & -> & _)|(_ & -> & _)]].
    + split; [simpl; lia|]. intros a [<-|[]]. reflexivity.
    + split; [simpl; lia|]. intros a [<-|[]]. reflexivity.
    + split; [simpl; lia|]. intros a [].
Qed.

Lemma handlers_edit_own_token_witness :
  (List.length (dispatched (onPaste sample_render sample_clipboard)) <= 1)%nat
  /\
  forall action,
    In action (dispatched (onPaste sample_render sample_clipboard)) ->
    action_tokens action = [Render.token sample_render].
Proof.
  apply (handlers_edit_own_token (fun _ _ => []) (fun _ => None)
           (fun query _ _ => query) sample_Token_str sample_render
           sample_clipboard (ChangeEvent.mk [] None)).
  left. reflexivity.
Defined.

(** X11: whenever a handler dispatches an action, what it then leaves
    in the local state is the trimmed committed text of the token and the
    selection start of the DOM input (0 without one), whatever was typed,
    pasted or selected. *)
Theorem handlers_reset_after_dispatch
  (getDefaultFilterValue : jsstring -> option FieldDefinition.t -> jsstring)
  (parseSearch : jsstring -> option (list ParseResultToken))
  (replaceTokensWithPadding :
     jsstring -> list FreeTextToken.t -> jsstring -> jsstring)
  (Token_str : Token -> jsstring)
  (r : Render.t) (text : jsstring) (e : ChangeEvent.t) (run : list Effect)
  (st : jsstring * Z) :
  In run
    [onPaste r text;
     onOptionSelected getDefaultFilterValue Token_str r text;
     onCustomValueBlurred r text;
     onCustomValueCommitted replaceTokensWithPadding r text;
     onExit r;
     onInputChange getDefaultFilterValue parseSearch Token_str r e] ->
  dispatched run <> [] ->
  run_setters run st = reset_state r.
Proof.
  intros [<-|[<-|[<-|[<-|[<-|[<-|[]]]]]]] Hd; try reflexivity.
  - unfold onExit in *.
    destruct (negb (JS.eqb (Render.inputValue r)
                      (trim (FreeTextToken.value (Render.token r)))));
      [reflexivity | now elim Hd].
  - destruct (onInputChange_cases getDefaultFilterValue parseSearch Token_str
                r e) as [(_ & _ & _ & H)|[(_ & _ & _ & H)|(_ & H & _)]];
      [apply H | apply H | congruence].
Qed.

Lemma handlers_reset_after_dispatch_witness :
  run_setters (onExit sample_edited_render) (lit "bar baz", 7)
  = (lit "bar", 7).
Proof.
  apply (handlers_reset_after_dispatch (fun _ _ => []) (fun _ => None)
           (fun query _ _ => query) sample_Token_str sample_edited_render
           [] (ChangeEvent.mk [] None)).
  - do 4 right. left. reflexivity.
  - vm_compute. discriminate.
Defined.

(** X12: a key typed in full commits what selecting that key from the
    menu commits: when a change event is classified as forming a filter,
    the action dispatched is the one [onOptionSelected] dispatches for
    the word at the cursor, so it is built from the text and the cursor
    before the keystroke and does not depend on the typed text. *)
Theorem typed_filter_commits_like_selected_option
  (getDefaultFilterValue : jsstring -> option FieldDefinition.t -> jsstring)
  (parseSearch : jsstring -> option (list ParseResultToken))
  (Token_str : Token -> jsstring) (r : Render.t) (e : ChangeEvent.t)
  (word : jsstring) :
  spec_classify parseSearch (filterValue r) (ChangeEvent.value e)
  = FORMS_FILTER word ->
  word = filterValue r /\
  dispatched (onInputChange getDefaultFilterValue parseSearch Token_str r e)
  = dispatched (onOptionSelected getDefaultFilterValue Token_str r word).
Proof.
  intros Hclass.
  destruct (onInputChange_cases getDefaultFilterValue parseSearch Token_str
              r e) as [(H & _)|[(H & -> & _)|(H & _)]];
    rewrite H in Hclass; try discriminate.
  injection Hclass as <-. split; reflexivity.
Qed.

Lemma typed_filter_commits_like_selected_option_witness :
  dispatched
    (onInputChange (fun _ _ => []) 
       (fun _ => Some [TokenResult_FILTER (lit "bar:") (lit "bar")])
       sample_Token_str sample_render (ChangeEvent.mk (lit "bar:") (Some 4)))
  = dispatched
      (onOptionSelected (fun _ _ => []) sample_Token_str sample_render
         (lit "bar")).
Proof.
  apply (typed_filter_commits_like_selected_option (fun _ _ => [])
           (fun _ => Some [TokenResult_FILTER (lit "bar:") (lit "bar")])
           sample_Token_str sample_render
           (ChangeEvent.mk (lit "bar:") (Some 4)) (lit "bar")).
  reflexivity.
Defined.

(** X13: a search is run by the submission of a custom value and by
    nothing else: [onCustomValueCommitted] calls [handleSearch] once,
    with the query in which the slot's token is replaced by the submitted
    text, and no other handler calls it. *)
Theorem only_submission_searches
  (getDefaultFilterValue : jsstring -> option FieldDefinition.t -> jsstring)
  (parseSearch : jsstring -> option (list ParseResultToken))
  (replaceTokensWithPadding :
     jsstring -> list FreeTextToken.t -> jsstring -> jsstring)
  (Token_str : Token -> jsstring)
  (r : Render.t) (text : jsstring) (e : ChangeEvent.t) :
  searches (onCustomValueCommitted replaceTokensWithPadding r text)
  = [replaceTokensWithPadding
       (SearchQueryBuilderContext.query (Render.context r))
       [Render.token r] text] /\
  searches (onPaste r text) = [] /\
  searches (onOptionSelected getDefaultFilterValue Token_str r text) = [] /\
  searches (onCustomValueBlurred r text) = [] /\
  searches (onExit r) = [] /\
  searches (onInputChange getDefaultFilterValue parseSearch Token_str r e)
  = [].
Proof.
  repeat split.
  - unfold onExit.
    destruct (negb (JS.eqb (Render.inputValue r)
                      (trim (FreeTextToken.value (Render.token r)))));
      reflexivity.
  - destruct (onInputChange_cases getDefaultFilterValue parseSearch Token_str
                r e) as [(_ & _ & H & _)|[(_ & _ & H & _)|(_ & _ & H & _)]];
      exact H.
Qed.

(** ** Candidate ranker: errors and the menu *)

Lemma map_throwing_Throw {A B} (f : A -> completion B) (l : list A) :
  map_throwing f l = Throw_TypeError <->
  exists x, In x l /\ f x = Throw_TypeError.
Proof.
  induction l as [|x l IH]; simpl.
  - split; [discriminate | intros (x & [] & _)].
  - destruct (f x) as [y|] eqn:E.
    + destruct (map_throwing f l) as [ys|] eqn:El; simpl.
      * split; [discriminate|].
        intros (z & [<-|Hz] & Hf); [congruence|].
        destruct IH as [_ IH].
        discriminate (IH (ex_intro _ z (conj Hz Hf))).
      * split; [intros _|reflexivity].
        destruct IH as [IH _]. destruct (IH eq_refl) as (z & Hz & Hf).
        exists z. auto.
    + split; [intros _; exists x; auto | reflexivity].
Qed.

Lemma completion_map_Throw {A B} (f : A -> B) (c : completion A) :
  completion_map f c = Throw_TypeError <-> c = Throw_TypeError.
Proof. destruct c; simpl; split; congruence. Qed.

Lemma createSection_Throw getEscapedKey section keys getFieldDefinition :
  createSection getEscapedKey section keys getFieldDefinition
  = Throw_TypeError <->
  exists key, In key (FilterKeySection.children section) /\
              TagCollection_read keys key = undefined.
Proof.
  unfold createSection. rewrite completion_map_Throw, map_throwing_Throw.
  split; intros (key & Hin & H); exists key; split; auto.
  - destruct (TagCollection_read keys key); (discriminate || reflexivity).
  - now rewrite H.
Qed.

(** X14: [useSortItems] throws exactly when it has to build the
    sections (the filter word is empty or the fuzzy engine is not
    loaded, and sections are configured) and some section has a child
    key for which [keys[key]] is [undefined]: a key that the catalog
    does not have and that is not the name of a member inherited from
    [Object.prototype] either; with the engine loaded and a filter word,
    or with no section configured, it never throws. *)
Theorem useSortItems_throws_iff
  (getEscapedKey : jsstring -> jsstring)
  (useFuzzySearch : list KeyItem.t -> option (jsstring -> list KeyItem.t))
  (ctx : SearchQueryBuilderContext.t) (filterValue : jsstring) :
  useSortItems getEscapedKey useFuzzySearch ctx filterValue = Throw_TypeError
  <->
  (filterValue = [] \/ useFuzzySearch (flatItems_of getEscapedKey ctx) = None)
  /\
  exists section key,
    In section (SearchQueryBuilderContext.filterKeySections ctx) /\
    In key (FilterKeySection.children section) /\
    TagCollection_read (SearchQueryBuilderContext.filterKeys ctx) key
    = undefined.
Proof.
  unfold useSortItems. fold (flatItems_of getEscapedKey ctx).
  assert (forall sections : list FilterKeySection.t,
            (if length sections =? 0
             then Normal (List.map Key (flatItems_of getEscapedKey ctx))
             else
               completion_map (List.map Section_)
                 (map_throwing
                    (fun section =>
                       createSection getEscapedKey section
                         (SearchQueryBuilderContext.filterKeys ctx)
                         (SearchQueryBuilderContext.getFieldDefinition ctx))
                    sections))
            = Throw_TypeError <->
            exists section key,
              In section sections /\
              In key (FilterKeySection.children section) /\
              TagCollection_read (SearchQueryBuilderContext.filterKeys ctx) key
              = undefined) as Hsections.
  { intros sections. destruct sections as [|s sections].
    - simpl. split; [discriminate | intros (s & _ & [] & _)].
    - rewrite length_cons. pose proof (length_nonneg sections) as Hnn.
      destruct (length sections + 1 =? 0) eqn:E;
        [apply Z.eqb_eq in E; lia|].
      rewrite completion_map_Throw, map_throwing_Throw. split.
      + intros (section & Hin & Hthrow).
        apply createSection_Throw in Hthrow.
        destruct Hthrow as (key & Hkey & Hget). eauto.
      + intros (section & key & Hin & Hkey & Hget).
        exists section. split; [assumption|].
        apply createSection_Throw. eauto. }
  destruct filterValue as [|c fv]; simpl is_empty; cbv iota.
  - rewrite Hsections. split; [intros Hx; split; auto | intros [_ Hx]; exact Hx].
  - destruct (useFuzzySearch (flatItems_of getEscapedKey ctx)) as [search|].
    + split; [discriminate|]. intros [[Hx|Hx] _]; discriminate.
    + rewrite Hsections.
      split; [intros Hx; split; auto | intros [_ Hx]; exact Hx].
Qed.

Lemma useSortItems_throws_iff_witness :
  useSortItems (fun key => key) (fun _ => None) sample_dangling_context
    (lit "rel")
  = Throw_TypeError.
Proof.
  apply useSortItems_throws_iff. split.
  - right. reflexivity.
  - exists (FilterKeySection.mk (lit "all") (lit "All")
              [lit "browser.name"; lit "release"]), (lit "release").
    repeat split.
    + left. reflexivity.
    + right. left. reflexivity.
Defined.

(** X15: while the fuzzy engine is not loaded ([useFuzzySearch] gives
    [null]) the filter word is ignored: the candidates are those of the
    empty word, the configured sections or the whole catalog. *)
Theorem useSortItems_engine_not_loaded
  (getEscapedKey : jsstring -> jsstring)
  (useFuzzySearch : list KeyItem.t -> option (jsstring -> list KeyItem.t))
  (ctx : SearchQueryBuilderContext.t) (filterValue : jsstring) :
  useFuzzySearch (flatItems_of getEscapedKey ctx) = None ->
  useSortItems getEscapedKey useFuzzySearch ctx filterValue
  = useSortItems getEscapedKey useFuzzySearch ctx [].
Proof.
  intros Hnull. unfold useSortItems. fold (flatItems_of getEscapedKey ctx).
  rewrite Hnull. destruct filterValue; reflexivity.
Qed.

Lemma useSortItems_engine_not_loaded_witness :
  useSortItems (fun key => key) (fun _ => None) sample_context (lit "brow")
  = useSortItems (fun key => key) (fun _ => None) sample_context [].
Proof.
  apply useSortItems_engine_not_loaded. reflexivity.
Defined.

(** X16: whenever the render asks for the tabbed menu (the local text
    is empty and sections are configured), the candidates it passes to
    the combobox are the section groupings, one per configured section,
    whatever the cursor and the fuzzy engine are; none of them is a
    single key. *)
Theorem tabbed_menu_shows_sections
  (getEscapedKey : jsstring -> jsstring)
  (useFuzzySearch : list KeyItem.t -> option (jsstring -> list KeyItem.t))
  (r : Render.t) :
  displayTabbedMenu r = true ->
  items getEscapedKey useFuzzySearch r
  = completion_map (List.map Section_)
      (map_throwing
         (fun section =>
            createSection getEscapedKey section
              (SearchQueryBuilderContext.filterKeys (Render.context r))
              (SearchQueryBuilderContext.getFieldDefinition
                 (Render.context r)))
         (SearchQueryBuilderContext.filterKeySections (Render.context r))) /\
  forall candidates,
    items getEscapedKey useFuzzySearch r = Normal candidates ->
    List.length candidates
    = List.length
        (SearchQueryBuilderContext.filterKeySections (Render.context r)) /\
    forallb isSection candidates = true.
Proof.
  unfold displayTabbedMenu. intros H. apply andb_true_iff in H.
  destruct H as [Hempty Hsections].
  apply Z.eqb_eq in Hempty. apply Z.gtb_lt in Hsections.
  assert (Render.inputValue r = []) as Hinput.
  { destruct (Render.inputValue r) as [|c rest]; [reflexivity|].
    rewrite length_cons in Hempty. pose proof (length_nonneg rest). lia. }
  assert (filterValue r = []) as Hword.
  { unfold filterValue. rewrite Hinput. unfold getWordAtCursorPosition.
    simpl. destruct (1 >=? Render.selectionIndex r); reflexivity. }
  assert (items getEscapedKey useFuzzySearch r
          = completion_map (List.map Section_)
              (map_throwing
                 (fun section =>
                    createSection getEscapedKey section
                      (SearchQueryBuilderContext.filterKeys (Render.context r))
                      (SearchQueryBuilderContext.getFieldDefinition
                         (Render.context r)))
                 (SearchQueryBuilderContext.filterKeySections
                    (Render.context r)))) as Hitems.
  { unfold items, useSortItems. rewrite Hword. simpl is_empty. cbv iota.
    destruct (length (SearchQueryBuilderContext.filterKeySections
                        (Render.context r)) =? 0) eqn:E;
      [apply Z.eqb_eq in E; lia | reflexivity]. }
  split; [exact Hitems|].
  intros candidates Hc. rewrite Hitems in Hc.
  destruct (map_throwing _ _) as [groups|] eqn:Hmap; [|discriminate].
  injection Hc as <-.
  assert (forall (A B : Type) (f : A -> completion B) l ys,
            map_throwing f l = Normal ys -> List.length ys = List.length l)
    as Hlen.
  { intros A B f l. induction l as [|x l IH]; intros ys Hys; simpl in Hys.
    - injection Hys as <-. reflexivity.
    - destruct (f x); [|discriminate].
      destruct (map_throwing f l) as [ys'|]; [|discriminate].
      injection Hys as <-. simpl. f_equal. now apply IH. }
  split.
  - rewrite length_map. now apply Hlen in Hmap.
  - clear. induction groups; simpl; auto.
Qed.

Lemma tabbed_menu_shows_sections_witness :
  exists candidates,
    items (fun key => key) (fun _ => None)
      (Render.mk (sample_free_node "freeText:0" EmptyString)
         (sample_free_text EmptyString)
         (ListState.mk [sample_free_node "freeText:0" EmptyString] None)
         [] 0 None sample_sectioned_context)
    = Normal candidates /\
    List.length candidates = 1%nat /\
    forallb isSection candidates = true.
Proof.
  destruct (tabbed_menu_shows_sections (fun key => key) (fun _ => None)
              (Render.mk (sample_free_node "freeText:0" EmptyString)
                 (sample_free_text EmptyString)
                 (ListState.mk [sample_free_node "freeText:0" EmptyString]
                    None)
                 [] 0 None sample_sectioned_context) eq_refl)
    as [_ Hall].
  eexists. split; [reflexivity|].
  apply Hall. reflexivity.
Defined.

(** ** The invalid-token tooltip *)

Lemma includes_unit s c : includes s [c] = true <-> In c s.
Proof.
  induction s as [|x s IH]; simpl.
  - split; [discriminate | tauto].
  - rewrite orb_true_iff, IH, andb_true_r, N.eqb_eq.
    split; intros [H|H]; auto.
Qed.

(** X17: the tooltip of an invalid token is left visible exactly when
    the menu is closed and the local text still shows the fault: some
    text for "free text not allowed", an asterisk for "wildcard not
    allowed", anything for the other reasons; for a valid token, or with
    the menu open, it is always hidden. *)
Theorem shouldHideInvalidTooltip_shown
  (token : FreeTextToken.t) (inputValue : jsstring) (isOpen : bool) :
  shouldHideInvalidTooltip token inputValue isOpen = false <->
  isOpen = false /\
  exists invalid_type,
    FreeTextToken.invalid token = Some invalid_type /\
    match invalid_type with
    | FREE_TEXT_NOT_ALLOWED => inputValue <> []
    | WILDCARD_NOT_ALLOWED => In ASTERISK inputValue
    | OtherInvalidReason _ => True
    end.
Proof.
  unfold shouldHideInvalidTooltip.
  destruct (FreeTextToken.invalid token) as [reason|].
  - destruct isOpen.
    + split; [discriminate | intros [? _]; discriminate].
    + split.
      * intros H. split; [reflexivity|]. exists reason.
        split; [reflexivity|].
        destruct reason; [apply eqb_neq, H | | exact I].
        apply includes_unit. now apply negb_false_iff in H.
      * intros (_ & reason' & [= <-] & H).
        destruct reason; [apply eqb_neq, H | | reflexivity].
        apply negb_false_iff. now apply includes_unit.
  - split; [discriminate | intros (_ & reason & H & _); discriminate].
Qed.

Lemma shouldHideInvalidTooltip_shown_witness :
  shouldHideInvalidTooltip
    (FreeTextToken.mk (lit "rel*") (lit "rel*") (Some WILDCARD_NOT_ALLOWED))
    (lit "rel*") false
  = false.
Proof.
  apply shouldHideInvalidTooltip_shown. split; [reflexivity|].
  exists WILDCARD_NOT_ALLOWED. split; [reflexivity|].
  vm_compute. tauto.
Defined.

(** ** The key handler *)

Lemma number_is_true n m : number_is n m = true <-> n = Some m.
Proof.
  destruct n as [n|]; simpl; [|split; discriminate].
  rewrite Z.eqb_eq. split; congruence.
Qed.

Lemma truthy_key_true k :
  truthy_key k = true <-> exists key, k = Some key /\ key <> [].
Proof.
  destruct k as [[|c key]|]; simpl; split; try discriminate.
  - intros (key & [= <-] & H). congruence.
  - intros _. eexists. split; [reflexivity | discriminate].
  - reflexivity.
  - intros (key & H & _). discriminate.
Qed.

(** X18: the key handler moves the focus of the list in two cases
    only: Backspace with the caret at offset 0 and nothing selected moves
    it to the key before the slot, Delete with the caret at the end of
    the text and nothing selected moves it to the key after the slot,
    each time only if that key exists (and is not empty).  Any other key
    event leaves the focus where it is. *)
Theorem onKeyDown_focus_moves
  (isCtrlKeyPressed : KeyboardEvent.t -> bool)
  (getKeyBefore getKeyAfter : ListState.t -> jsstring -> option jsstring)
  (r : Render.t) (e : KeyboardEvent.t) (target : jsstring) :
  In (setFocusedKey target)
    (onKeyDown isCtrlKeyPressed getKeyBefore getKeyAfter r e)
  <->
  (KeyboardEvent.key e = lit "Backspace" /\
   KeyboardEvent.selectionStart e = Some 0 /\
   KeyboardEvent.selectionEnd e = Some 0 /\
   getKeyBefore (Render.state r) (Node.key (Render.item r)) = Some target /\
   target <> []) \/
  (KeyboardEvent.key e = lit "Delete" /\
   KeyboardEvent.selectionStart e = Some (length (KeyboardEvent.value e)) /\
   KeyboardEvent.selectionEnd e = Some (length (KeyboardEvent.value e)) /\
   getKeyAfter (Render.state r) (Node.key (Render.item r)) = Some target /\
   target <> []).
Proof.
  unfold onKeyDown. rewrite !in_app_iff.
  assert (forall (cond : bool) (k : option jsstring),
            In (setFocusedKey target)
              (if cond then
                 if truthy_key k then
                   match k with
                   | Some key => [setFocusedKey key]
                   | None => []
                   end
                 else []
               else [])
            <-> cond = true /\ k = Some target /\ target <> []) as Hmove.
  { intros cond k. destruct cond; [|simpl; split; [tauto | intros [? _]; discriminate]].
    destruct k as [[|c key]|]; simpl.
    - split; [tauto | intros (_ & [= <-] & H); congruence].
    - split.
      + intros [[= <-]|[]]. repeat split. discriminate.
      + intros (_ & [= <-] & _). now left.
    - split; [tauto | intros (_ & H & _); discriminate]. }
  rewrite !Hmove, !andb_true_iff, !number_is_true, !eqb_eq.
  split.
  - intros [H|[H|[H|H]]].
    + apply in_map_iff in H. destruct H as (x & H & _). discriminate.
    + destruct (isCtrlKeyPressed e); [|destruct H].
      destruct (JS.eqb (KeyboardEvent.key e) (lit "z")).
      * destruct (JS.eqb (Render.inputValue r) (trimmedTokenValue r));
          [destruct H as [H|[]]; discriminate | destruct H].
      * destruct (JS.eqb (KeyboardEvent.key e) (lit "a"));
          [destruct H as [H|[]]; discriminate | destruct H].
    + left. tauto.
    + right. tauto.
  - intros [H|H]; [right; right; left | right; right; right]; tauto.
Qed.

Lemma onKeyDown_focus_moves_witness :
  In (setFocusedKey (lit "filter:1"))
    (onKeyDown (fun _ => false)
       (fun _ _ => Some (lit "filter:1")) (fun _ _ => Some (lit "filter:2"))
       sample_render
       (KeyboardEvent.mk (lit "Backspace") (Some 0) (Some 0) (lit "bar"))).
Proof.
  apply onKeyDown_focus_moves. left.
  repeat split. discriminate.
Defined.

(** X19: the key handler lets a key event propagate to the grid only
    for ctrl+a, and for ctrl+z when the local text is the committed one
    (nothing left for the input to undo); and it never dispatches and
    never sets the local text: its only state change is the selection
    index. *)
Theorem onKeyDown_propagation
  (isCtrlKeyPressed : KeyboardEvent.t -> bool)
  (getKeyBefore getKeyAfter : ListState.t -> jsstring -> option jsstring)
  (r : Render.t) (e : KeyboardEvent.t) :
  (In continuePropagation
     (onKeyDown isCtrlKeyPressed getKeyBefore getKeyAfter r e)
   <->
   isCtrlKeyPressed e = true /\
   (KeyboardEvent.key e = lit "z" /\ Render.inputValue r = trimmedTokenValue r
    \/ KeyboardEvent.key e = lit "a")) /\
  forall effect,
    In (setter effect)
      (onKeyDown isCtrlKeyPressed getKeyBefore getKeyAfter r e) ->
    effect = setSelectionIndex (nullish (Render.inputRef_selectionStart r) 0).
Proof.
  assert (forall (x : KeyDownEffect) (cond : bool) (k : option jsstring),
            (forall key, x <> setFocusedKey key) ->
            ~ In x
              (if cond then
                 if truthy_key k then
                   match k with
                   | Some key => [setFocusedKey key]
                   | None => []
                   end
                 else []
               else [])) as Hmove.
  { intros x cond k Hx. destruct cond; [|tauto].
    destruct (truthy_key k); [|tauto].
    destruct k; [|tauto]. intros [H|[]]. now apply (Hx j). }
  unfold onKeyDown. split.
  - rewrite !in_app_iff. split.
    + intros [H|[H|[H|H]]].
      * apply in_map_iff in H. destruct H as (x & H & _). discriminate.
      * destruct (isCtrlKeyPressed e); [|destruct H].
        split; [reflexivity|].
        destruct (JS.eqb (KeyboardEvent.key e) (lit "z")) eqn:Ez.
        -- destruct (JS.eqb (Render.inputValue r) (trimmedTokenValue r))
             eqn:Ev; [|destruct H].
           left. split; now apply eqb_eq.
        -- destruct (JS.eqb (KeyboardEvent.key e) (lit "a")) eqn:Ea;
             [|destruct H].
           right. now apply eqb_eq.
      * exfalso. revert H. apply Hmove. discriminate.
      * exfalso. revert H. apply Hmove. discriminate.
    + intros [-> [[Hz Hv]|Ha]]; right; left.
      * rewrite Hz, Hv. simpl. rewrite eqb_refl. now left.
      * rewrite Ha. simpl. now left.
  - intros effect. rewrite !in_app_iff. intros [H|[H|[H|H]]].
    + apply in_map_iff in H. destruct H as (x & [= <-] & [<-|[]]).
      reflexivity.
    + destruct (isCtrlKeyPressed e); [|destruct H].
      destruct (JS.eqb (KeyboardEvent.key e) (lit "z")).
      * destruct (JS.eqb (Render.inputValue r) (trimmedTokenValue r));
          [destruct H as [H|[]]; discriminate | destruct H].
      * destruct (JS.eqb (KeyboardEvent.key e) (lit "a"));
          [destruct H as [H|[]]; discriminate | destruct H].
    + exfalso. revert H. apply Hmove. discriminate.
    + exfalso. revert H. apply Hmove. discriminate.
Qed.

Lemma onKeyDown_propagation_witness :
  In continuePropagation
    (onKeyDown (fun _ => true) (fun _ _ => None) (fun _ _ => None)
       sample_render
       (KeyboardEvent.mk (lit "z") (Some 3) (Some 3) (lit "bar"))) /\
  ~ In continuePropagation
      (onKeyDown (fun _ => true) (fun _ _ => None) (fun _ _ => None)
         sample_edited_render
         (KeyboardEvent.mk (lit "z") (Some 7) (Some 7) (lit "bar baz"))).
Proof.
  split.
  - apply onKeyDown_propagation. split; [reflexivity|].
    left. split; reflexivity.
  - intros H. apply onKeyDown_propagation in H.
    destruct H as [_ [[_ H]|H]]; vm_compute in H; discriminate.
Defined.

(** ** The state check of a render, and leaving the slot *)

(** X20: the state check of a render is idempotent; when the committed
    text is not the one the previous render saw, the local text becomes
    the trimmed committed text, and leaving the slot then commits nothing
    exactly when the text and the value of the token trim to the same
    string (for a token whose value differs from its text, leaving the
    untouched slot still dispatches its text); when the committed text is
    unchanged, the render keeps the local text. *)
Theorem synced_slot_exit (r : Render.t) (prevValue : jsstring) :
  (forall st,
     syncTokenValue (trimmedTokenValue r)
       (syncTokenValue (trimmedTokenValue r) st)
     = syncTokenValue (trimmedTokenValue r) st) /\
  (prevValue <> trimmedTokenValue r ->
   Render.inputValue (synced r prevValue) = trimmedTokenValue r /\
   (onExit (synced r prevValue) = [] <->
    trim (FreeTextToken.text (Render.token r))
    = trim (FreeTextToken.value (Render.token r)))) /\
  (prevValue = trimmedTokenValue r ->
   Render.inputValue (synced r prevValue) = Render.inputValue r).
Proof.
  split; [|split].
  - intros [prev input]. unfold syncTokenValue. simpl fst.
    destruct (JS.eqb (trimmedTokenValue r) prev) eqn:E; simpl.
    + now rewrite E.
    + now rewrite eqb_refl.
  - intros Hne.
    assert (Render.inputValue (synced r prevValue) = trimmedTokenValue r)
      as Hinput.
    { unfold synced, syncTokenValue. simpl.
      fold (trimmedTokenValue r).
      assert (JS.eqb (trimmedTokenValue r) prevValue = false) as ->
        by (apply eqb_neq; congruence).
      reflexivity. }
    split; [exact Hinput|].
    unfold onExit. rewrite Hinput. unfold trimmedTokenValue.
    change (Render.token (synced r prevValue)) with (Render.token r).
    destruct (JS.eqb (trim (FreeTextToken.text (Render.token r)))
                (trim (FreeTextToken.value (Render.token r)))) eqn:E; simpl.
    + apply eqb_eq in E. tauto.
    + apply eqb_neq in E. split; [discriminate | tauto].
  - intros ->. unfold synced, syncTokenValue. simpl.
    fold (trimmedTokenValue r). now rewrite eqb_refl.
Qed.

Lemma synced_slot_exit_witness :
  Render.inputValue (synced sample_edited_render (lit "old")) = lit "bar" /\
  onExit (synced sample_edited_render (lit "old")) = [] /\
  Render.inputValue (synced sample_edited_render (lit "bar")) = lit "bar baz".
Proof.
  destruct (synced_slot_exit sample_edited_render (lit "old"))
    as (_ & Hchanged & _).
  destruct (synced_slot_exit sample_edited_render (lit "bar"))
    as (_ & _ & Hsame).
  destruct Hchanged as [Hinput Hexit]; [vm_compute; discriminate|].
  split; [exact Hinput|]. split.
  - apply Hexit. reflexivity.
  - apply Hsame. reflexivity.
Defined.

(** ** The Rails snippets *)

Lemma startsWith_app_sep (c : code_unit) (sub : jsstring) :
  ~ In c sub ->
  forall a b, startsWith (a ++ c :: b) sub = startsWith a sub.
Proof.
  induction sub as [|x sub IH]; intros Hc a b; [reflexivity|].
  assert (N.eqb x c = false) as Hx.
  { apply N.eqb_neq. intros ->. apply Hc. now left. }
  destruct a as [|y a]; simpl.
  - now rewrite Hx.
  - rewrite IH; [reflexivity|]. intros H. apply Hc. now right.
Qed.

Lemma includes_cons (y : code_unit) (s sub : jsstring) :
  includes (y :: s) sub = startsWith (y :: s) sub || includes s sub.
Proof. reflexivity. Qed.

(** A text that lacks a unit is found in [a ++ c :: b] only inside [a] or
    inside [b]. *)
Lemma includes_app_sep (c : code_unit) (sub a b : jsstring) :
  ~ In c sub ->
  includes (a ++ c :: b) sub = includes a sub || includes b sub.
Proof.
  intros Hc. induction a as [|y a IH].
  - pose proof (startsWith_app_sep c sub Hc [] b) as H. simpl app in *.
    rewrite includes_cons, H. destruct sub; reflexivity.
  - simpl app. rewrite !includes_cons, IH.
    pose proof (startsWith_app_sep c sub Hc (y :: a) b) as H.
    simpl app in H. rewrite H. now rewrite orb_assoc.
Qed.

Lemma startsWith_app_self (m b : jsstring) : startsWith (m ++ b) m = true.
Proof.
  induction m as [|x m IH]; [reflexivity|].
  simpl. now rewrite N.eqb_refl.
Qed.

Lemma includes_startsWith (s sub : jsstring) :
  startsWith s sub = true -> includes s sub = true.
Proof. destruct s; simpl; intros ->; reflexivity. Qed.

Lemma includes_app_r (a s sub : jsstring) :
  includes s sub = true -> includes (a ++ s) sub = true.
Proof.
  intros H. induction a as [|y a IH]; [exact H|].
  simpl app. rewrite includes_cons, IH. apply orb_true_r.
Qed.

(** The snippet around the DSN. *)
Lemma getConfigureSnippet_shape (params : Params.t) :
  getConfigureSnippet params
  = configure_before
    ++ APOSTROPHE :: Params.dsn params
    ++ APOSTROPHE :: configure_after params.
Proof.
  destruct params as [profiling performance dsn].
  unfold getConfigureSnippet, lines, configure_after.
  cbn [Params.isProfilingSelected Params.isPerformanceSelected Params.dsn join].
  rewrite <- !app_assoc.
  destruct profiling, performance; reflexivity.
Qed.

(** X21: whatever the DSN, the configure snippet contains the
    assignment [config.dsn = '<dsn>'] with the DSN verbatim between the
    quotes; and it mentions [traces_sample_rate] exactly when performance
    is selected and [profiles_sample_rate] exactly when profiling is
    selected, unless the DSN itself contains the word. *)
Theorem getConfigureSnippet_contents (params : Params.t) :
  includes (getConfigureSnippet params)
    (lit "config.dsn = '" ++ Params.dsn params ++ lit "'")
  = true /\
  includes (getConfigureSnippet params) (lit "traces_sample_rate")
  = Params.isPerformanceSelected params
    || includes (Params.dsn params) (lit "traces_sample_rate") /\
  includes (getConfigureSnippet params) (lit "profiles_sample_rate")
  = Params.isProfilingSelected params
    || includes (Params.dsn params) (lit "profiles_sample_rate").
Proof.
  rewrite getConfigureSnippet_shape.
  split; [|split].
  - replace (configure_before
             ++ APOSTROPHE :: Params.dsn params
             ++ APOSTROPHE :: configure_after params)
      with (([LF] ++ lit "Sentry.init do |config|" ++ [LF] ++ lit "  ")
            ++ (lit "config.dsn = '" ++ Params.dsn params ++ lit "'")
            ++ configure_after params)
      by (unfold configure_before; rewrite <- !app_assoc; reflexivity).
    apply includes_app_r, includes_startsWith, startsWith_app_self.
  - rewrite !includes_app_sep by (vm_compute; intuition discriminate).
    destruct params as [[] [] dsn]; cbn [Params.dsn Params.isPerformanceSelected];
      vm_compute (includes configure_before _);
      vm_compute (includes (configure_after _) _);
      now rewrite ?orb_false_r, ?orb_true_r.
  - rewrite !includes_app_sep by (vm_compute; intuition discriminate).
    destruct params as [[] [] dsn]; cbn [Params.dsn Params.isProfilingSelected];
      vm_compute (includes configure_before _);
      vm_compute (includes (configure_after _) _);
      now rewrite ?orb_false_r, ?orb_true_r.
Qed.

(** ** Default value synthesizer: the key text *)

Lemma getInitialFilterText_shape
  (getDefaultFilterValue : jsstring -> option FieldDefinition.t -> jsstring)
  (key : jsstring) (fieldDefinition : option FieldDefinition.t) :
  exists rest,
    getInitialFilterText getDefaultFilterValue key fieldDefinition
    = getInitialFilterKeyText key fieldDefinition ++ COLON :: rest.
Proof.
  unfold getInitialFilterText.
  destruct fieldDefinition as [fd|]; [|eexists; reflexivity].
  destruct (FieldDefinition.valueType fd) as [[]|]; eexists; reflexivity.
Qed.

(** X22: the key text can be read back from the synthesized filter
    text: when the key text has no colon, it is the first of the fields
    the filter text splits into at its colons; for a field that is not a
    function (or an unknown key) that first field is the key itself. *)
Theorem getInitialFilterText_key_field
  (getDefaultFilterValue : jsstring -> option FieldDefinition.t -> jsstring)
  (key : jsstring) (fieldDefinition : option FieldDefinition.t) :
  (~ In COLON (getInitialFilterKeyText key fieldDefinition) ->
   nth_error
     (split COLON
        (getInitialFilterText getDefaultFilterValue key fieldDefinition)) 0
   = Some (getInitialFilterKeyText key fieldDefinition)) /\
  (~ In COLON key ->
   (forall fd, fieldDefinition = Some fd ->
               is_FUNCTION (FieldDefinition.kind fd) = false) ->
   nth_error
     (split COLON
        (getInitialFilterText getDefaultFilterValue key fieldDefinition)) 0
   = Some key).
Proof.
  destruct (getInitialFilterText_shape getDefaultFilterValue key
              fieldDefinition) as (rest & ->).
  split.
  - intros Hk. now rewrite split_app_sep.
  - intros Hk Hkind.
    assert (getInitialFilterKeyText key fieldDefinition = key) as ->.
    { unfold getInitialFilterKeyText.
      destruct fieldDefinition as [fd|]; [|reflexivity].
      now rewrite (Hkind fd eq_refl). }
    now rewrite split_app_sep.
Qed.

Lemma getInitialFilterText_key_field_witness :
  nth_error
    (split COLON
       (getInitialFilterText (fun _ _ => lit "10:30") (lit "timestamp") None))
    0
  = Some (lit "timestamp").
Proof.
  apply getInitialFilterText_key_field.
  - vm_compute; intuition discriminate.
  - discriminate.
Defined.

(** X23: a function whose parameters have no default value, or that
    has no parameter at all (an empty list or none), synthesizes the key
    followed by an empty pair of parentheses. *)
Theorem getInitialFilterKeyText_no_defaults
  (key : jsstring) (fd : FieldDefinition.t) :
  FieldDefinition.kind fd = FUNCTION ->
  (forall parameters,
     FieldDefinition.parameters fd = Some parameters ->
     Forall (fun param => AggregateParameter.defaultValue param = None)
       parameters) ->
  getInitialFilterKeyText key (Some fd) = key ++ lit "()".
Proof.
  intros Hkind Hparams. unfold getInitialFilterKeyText. rewrite Hkind.
  simpl is_FUNCTION. cbv iota.
  destruct (FieldDefinition.parameters fd) as [parameters|]; [|reflexivity].
  specialize (Hparams parameters eq_refl).
  assert (List.filter
            (fun param => defined (AggregateParameter.defaultValue param))
            parameters = []) as ->.
  { induction Hparams as [|p ps Hp _ IH]; [reflexivity|].
    simpl. now rewrite Hp, IH. }
  reflexivity.
Qed.

Lemma getInitialFilterKeyText_no_defaults_witness :
  getInitialFilterKeyText (lit "count")
    (Some (FieldDefinition.mk FUNCTION (Some INTEGER) None
             (Some [AggregateParameter.mk (lit "column") None])))
  = lit "count()".
Proof.
  apply getInitialFilterKeyText_no_defaults.
  - reflexivity.
  - intros parameters [= <-]. repeat constructor.
Defined.

(** ** Paste and parentheses *)

(** X24: the text a paste commits never has white space at its start
    or its end; and when the clipboard text has at most one newline the
    committed text is the clipboard text without newlines, trimmed. *)
Theorem onPaste_commit (r : Render.t) (clipboardData : jsstring) :
  (exists text,
     dispatched (onPaste r clipboardData)
     = [REPLACE_TOKENS_WITH_TEXT [Render.token r] text] /\
     trim text = text) /\
  (~ In LF clipboardData ->
   dispatched (onPaste r clipboardData)
   = [REPLACE_TOKENS_WITH_TEXT [Render.token r] (trim clipboardData)]) /\
  (forall a b,
     clipboardData = a ++ LF :: b -> ~ In LF a -> ~ In LF b ->
     dispatched (onPaste r clipboardData)
     = [REPLACE_TOKENS_WITH_TEXT [Render.token r]
          (trim (strip_newlines clipboardData))]).
Proof.
  assert (dispatched (onPaste r clipboardData)
          = [REPLACE_TOKENS_WITH_TEXT [Render.token r]
               (trim (replace clipboardData [LF] []))]) as Hrun
    by reflexivity.
  rewrite Hrun. split; [|split].
  - eexists. split; [reflexivity | apply trim_idempotent].
  - intros Hno. now rewrite (proj1 (replace_no_newline clipboardData Hno)).
  - intros a b -> Ha Hb. now rewrite replace_single_newline.
Qed.

Lemma onPaste_commit_witness :
  dispatched (onPaste sample_empty_render (lit " level:error "))
  = [REPLACE_TOKENS_WITH_TEXT [Render.token sample_empty_render]
       (lit "level:error")] /\
  dispatched
    (onPaste sample_empty_render (lit "level:" ++ LF :: lit "error "))
  = [REPLACE_TOKENS_WITH_TEXT [Render.token sample_empty_render]
       (lit "level:error")].
Proof.
  destruct (onPaste_commit sample_empty_render (lit " level:error "))
    as (_ & Hnone & _).
  destruct (onPaste_commit sample_empty_render
              (lit "level:" ++ LF :: lit "error ")) as (_ & _ & Hone).
  split.
  - apply Hnone. vm_compute; intuition discriminate.
  - apply (Hone (lit "level:") (lit "error ")).
    + reflexivity.
    + vm_compute; intuition discriminate.
    + vm_compute; intuition discriminate.
Defined.

(** X25: typing a parenthesis in the slot of key [type:n], with [n]
    below 2^53, commits the typed text as it is and sends the focus to
    the free-text slot of index [n + 1]: the one action dispatched
    carries the raw text and that focus target, with no part. *)
Theorem typed_paren_focuses_next_slot
  (getDefaultFilterValue : jsstring -> option FieldDefinition.t -> jsstring)
  (parseSearch : jsstring -> option (list ParseResultToken))
  (Token_str : Token -> jsstring) (r : Render.t) (e : ChangeEvent.t)
  (prefix : jsstring) (n : Z) :
  spec_classify parseSearch (filterValue r) (ChangeEvent.value e)
  = FORMS_PAREN ->
  0 <= n < JSNumber.MAX_EXACT ->
  ~ In COLON prefix ->
  Node.key (Render.item r) = prefix ++ lit ":" ++ Number_toString n ->
  dispatched (onInputChange getDefaultFilterValue parseSearch Token_str r e)
  = [UPDATE_FREE_TEXT [Render.token r] (ChangeEvent.value e)
       (Some
          {| FocusOverride.itemKey :=
               Token_str FREE_TEXT ++ lit ":" ++ Number_toString (n + 1);
             FocusOverride.part := None |})].
Proof.
  intros Hclass Hn Hp Hkey.
  destruct (onInputChange_cases getDefaultFilterValue parseSearch Token_str
              r e) as [(_ & -> & _)|[(H & _)|(H & _)]];
    [|rewrite H in Hclass; discriminate..].
  unfold calculateNextFocusForParen.
  rewrite Hkey, split_key by (assumption || lia).
  simpl nth_error. now rewrite index_succ_exact.
Qed.

Lemma typed_paren_focuses_next_slot_witness :
  dispatched
    (onInputChange (fun _ _ => [])
       (fun _ => Some [TokenResult_L_PAREN (lit "(")])
       sample_Token_str sample_render (ChangeEvent.mk (lit "bar(") (Some 4)))
  = [UPDATE_FREE_TEXT [Render.token sample_render] (lit "bar(")
       (Some
          {| FocusOverride.itemKey := lit "freeText:3";
             FocusOverride.part := None |})].
Proof.
  apply (typed_paren_focuses_next_slot (fun _ _ => [])
           (fun _ => Some [TokenResult_L_PAREN (lit "(")])
           sample_Token_str sample_render
           (ChangeEvent.mk (lit "bar(") (Some 4)) (lit "freeText") 2).
  - reflexivity.
  - unfold JSNumber.MAX_EXACT. lia.
  - vm_compute; intuition discriminate.
  - reflexivity.
Defined.

(** ** Menu label and inserted key text *)

(** X26: for a field that is not a function, for an unknown key, and
    for a function without parameters, the label the menu shows for a
    key is the key text that selecting it inserts; only a function with
    parameters is shown differently (with its parameter names or an
    ellipsis instead of the default values). *)
Theorem getKeyLabel_is_inserted_key_text
  (tag : Tag.t) (fieldDefinition : option FieldDefinition.t)
  (includeAggregateArgs : bool) :
  (forall fd,
     fieldDefinition = Some fd ->
     is_FUNCTION (FieldDefinition.kind fd) = true ->
     FieldDefinition.parameters fd = None
     \/ FieldDefinition.parameters fd = Some []) ->
  getKeyLabel tag fieldDefinition includeAggregateArgs
  = getInitialFilterKeyText (Tag.key tag) fieldDefinition.
Proof.
  intros Hfd. unfold getKeyLabel, getInitialFilterKeyText.
  destruct fieldDefinition as [fd|]; [|reflexivity].
  destruct (is_FUNCTION (FieldDefinition.kind fd)) eqn:Hkind; [|reflexivity].
  destruct (Hfd fd eq_refl Hkind) as [-> | ->]; reflexivity.
Qed.

Lemma getKeyLabel_is_inserted_key_text_witness :
  getKeyLabel (Tag.mk (lit "count") (Some FUNCTION))
    (Some (FieldDefinition.mk FUNCTION (Some INTEGER) None (Some []))) true
  = getInitialFilterKeyText (lit "count")
      (Some (FieldDefinition.mk FUNCTION (Some INTEGER) None (Some []))).
Proof.
  apply (getKeyLabel_is_inserted_key_text (Tag.mk (lit "count") (Some FUNCTION))).
  intros fd [= <-] _. right. reflexivity.
Defined.
